(** * yarn-plugin-nixify: the Nix expression generator

    A shallow embedding of the generator that runs after [yarn install]
    (the default export of the generator module, with its cache-entry
    index, the closure walker [collectTree], the isolated-build loop and
    the final writes) and of the older commands of [src/index.ts]:
    [generate] with its checks, its [filterSource] entries and its
    writes, and [install-bin].

    Conventions.
    - A string is the sequence of its code units, each below 256, as
      in locator strings and file names written in ASCII; on these
      [String.le] is the order of the default [Array.prototype.sort],
      which compares code units.
    - A JS [Map] whose iteration order is observed is an association
      list in insertion order ([JsMap]); a [Map] that is only looked up
      is a [gmap].  A JS [Set<string>] is a duplicate-free list in
      insertion order.
    - A thrown [Error] is [Throw msg]; exhausting the call stack (the
      [RangeError] of a recursion that is too deep) is [StackOverflow].
      The number of frames left is the [depth] argument of the walker.
    - Functions of [@yarnpkg/core], [@yarnpkg/fslib], [./textUtils] and
      [./nixUtils] are fields of the class [YarnApi]; those that only
      the commands call are fields of [CommandApi].
    - [ppath.relative] resolves relative paths against the working
      directory of the process, [process_cwd], which belongs to the
      class for that reason.
    - A [while] loop whose end depends on such a function takes the
      number of rounds it may run; it answers [None] when they do not
      suffice. *)

From Stdlib Require Import Ascii String.
From stdpp Require Import base option list strings sorting gmap relations pretty.

Local Open Scope string_scope.
Local Open Scope list_scope.

Set Warnings "-clear-no-such-hyp".

(** ** Outcomes of a call *)

Inductive result (A : Type) : Type :=
  | Return (a : A)
  | Throw (msg : string)
  | StackOverflow.
Arguments Return {A} a.
Arguments Throw {A} msg.
Arguments StackOverflow {A}.

Definition result_bind {A B} (f : A → result B) (r : result A) : result B :=
  match r with
  | Return a => f a
  | Throw msg => Throw msg
  | StackOverflow => StackOverflow
  end.

#[global] Instance result_mbind : MBind result := @result_bind.
#[global] Instance result_mret : MRet result := @Return.

(** [for (const x of xs) { s = body(s, x) }] where the body may throw. *)
Fixpoint forEach {A S} (body : S → A → result S) (xs : list A) (s : S) : result S :=
  match xs with
  | [] => Return s
  | x :: xs' => s' ← body s x; forEach body xs' s'
  end.

(** ** JS containers *)

Definition JsMap (V : Type) : Type := list (string * V).

Fixpoint map_get {V} (m : JsMap V) (k : string) : option V :=
  match m with
  | [] => None
  | (k', v) :: m' => if String.eqb k' k then Some v else map_get m' k
  end.

Definition map_has {V} (m : JsMap V) (k : string) : bool :=
  match map_get m k with Some _ => true | None => false end.

(** [Map.prototype.set]: an existing key keeps its position. *)
Fixpoint map_set {V} (m : JsMap V) (k : string) (v : V) : JsMap V :=
  match m with
  | [] => [(k, v)]
  | (k', v') :: m' =>
      if String.eqb k' k then (k', v) :: m' else (k', v') :: map_set m' k v
  end.

Definition map_keys {V} (m : JsMap V) : list string := m.*1.
Definition map_values {V} (m : JsMap V) : list V := m.*2.

(** [Set.prototype.add] on a set in insertion order. *)
Definition set_add `{EqDecision A} (s : list A) (x : A) : list A :=
  if decide (x ∈ s) then s else s ++ [x].

(** [Array.prototype.join]. *)
Definition join (sep : string) (xs : list string) : string := String.concat sep xs.

(** [[...xs].sort()] on strings. *)
Definition sort (xs : list string) : list string := merge_sort String.le xs.

Definition nl : string := String (Ascii.ascii_of_nat 10) "".

(** A value used as a condition: [undefined], [null] and [""] are falsy. *)
Definition truthy (o : option string) : option string :=
  match o with
  | Some "" => None
  | _ => o
  end.

(** [s.split("/").pop()]: the part after the last slash. *)
Fixpoint lastSegment_go (cur : string) (s : string) : string :=
  match s with
  | "" => String.rev cur
  | String a s' =>
      if Ascii.eqb a "/"%char then lastSegment_go "" s'
      else lastSegment_go (String a cur) s'
  end.
Definition lastSegment (s : string) : string := lastSegment_go "" s.

(** [s.slice(0, n)]. *)
Definition slice0 (n : nat) (s : string) : string := String.substring 0 n s.

(** ** The resolved project *)

Abbreviation LocatorHash := string.
Abbreviation DescriptorHash := string.

Record Descriptor : Type := mkDescriptor { descriptorHash : DescriptorHash }.

Record Ident : Type := mkIdent { identScope : option string; identName : string }.

(** A [Package]; [dependencies] lists [pkg.dependencies.values()]. *)
Record Package : Type := mkPackage {
  locatorHash : LocatorHash;
  name : string;
  reference : string;
  version : option string;
  dependencies : list Descriptor
}.

(** [Set<Package>] compares objects.  Every package of a run is the
    object [storedPackages] holds for its [locatorHash], so two packages
    are the same object exactly when their records are equal. *)
#[global] Instance Descriptor_eq_dec : EqDecision Descriptor.
Proof. solve_decision. Defined.
#[global] Instance Package_eq_dec : EqDecision Package.
Proof. solve_decision. Defined.

Record Configuration : Type := mkConfiguration {
  (* [configuration.get("yarnPath")] of a project that sets it; where
     the setting is left out its value is [null], and both generators
     stop with the [TypeError] of their first [ppath.relative] *)
  yarnPath : string;
  cacheFolder : string;
  sources : list string;
  nixExprPath : string;
  lockfileFilename : string;
  isolatedNixBuilds : list string;
  nodeLinker : string;
  pnpUnpluggedFolder : string;
  generateDefaultNix : bool;
  enableNixPreload : bool
}.

Record Project : Type := mkProject {
  configuration : Configuration;
  cwd : string;
  storedPackages : JsMap Package;
  storedResolutions : gmap DescriptorHash LocatorHash;
  storedChecksums : gmap LocatorHash string;
  storedBuildState : JsMap string;
  manifestName : option Ident
}.

Record CacheEntry : Type := mkCacheEntry { filename : string; sha512 : string }.

(** ** External functions *)

Class YarnApi : Type := {
  (* structUtils *)
  stringifyLocator : Package → string;
  stringifyIdent : Ident → string;
  isVirtualLocator : Package → bool;
  (* [structUtils.devirtualizeLocator(pkg).locatorHash] *)
  devirtualizeLocator : Package → LocatorHash;
  slugifyLocator : Package → string;
  getIdentVendorPath : Package → string;
  (* [patchUtils.parseLocator(pkg).sourceLocator.locatorHash] *)
  parseLocator : Package → LocatorHash;
  (* [cache.getLocatorPath(pkg, checksum, cacheOptions)] *)
  getLocatorPath : Package → option string → option string;
  (* [process.cwd()], against which [ppath.relative] resolves the
     relative paths it is given *)
  process_cwd : string;
  (* [ppath.relative(from, to)] in a process with that working directory *)
  ppath_relative_in : string → string → string → string;
  (* ppath *)
  ppath_join : list string → string;
  ppath_dirname : string → string;
  ppath_basename : string → string;
  (* ./textUtils *)
  json : string → string;
  indent : string → string → string;
  upperCamelize : string → string;
  (* ./nixUtils; the checksum is passed in hexadecimal *)
  sanitizeDerivationName : string → string;
  computeFixedOutputStorePath : string → string → string → string
}.

(** [ppath.relative(from, to)] in the process of the run. *)
Definition ppath_relative `{YarnApi} (from to : string) : string :=
  ppath_relative_in process_cwd from to.

(** [JSON.stringify] of a [string | null]. *)
Definition jsonNullable `{YarnApi} (v : option string) : string :=
  match v with
  | Some s => json s
  | None => "null"
  end.

Definition assertLocator : string :=
  "Assertion failed: The locator should have been registered".
Definition assertDescriptor : string :=
  "Assertion failed: The descriptor should have been registered".

(** ** The closure walker *)

Section Walker.
Context `{YarnApi} (project : Project) (cacheEntries : JsMap CacheEntry).

(** The body of the loop over [pkg.dependencies.values()]. *)
Definition visitDependency (collect : Package → list string → result (list string))
    (out : list string) (dependency : Descriptor) : result (list string) :=
  match storedResolutions project !! descriptorHash dependency with
  | None => Throw assertDescriptor
  | Some resolution =>
      match map_get (storedPackages project) resolution with
      | None => Throw assertLocator
      | Some depPkg => collect depPkg out
      end
  end.

(** One activation of [collectTree]; [collect] is the recursive call. *)
Definition collectBody (collect : Package → list string → result (list string))
    (pkg : Package) (out : list string) : result (list string) :=
  let locatorStr := stringifyLocator pkg in
  let out := if map_has cacheEntries locatorStr then set_add out locatorStr else out in
  out ← (if isVirtualLocator pkg then
           match map_get (storedPackages project) (devirtualizeLocator pkg) with
           | None => Throw assertLocator
           | Some devirtPkg => collect devirtPkg out
           end
         else Return out);
  out ← (if String.prefix "patch:" (reference pkg) then
           match map_get (storedPackages project) (parseLocator pkg) with
           | None => Throw assertLocator
           | Some depatchPkg => collect depatchPkg out
           end
         else Return out);
  forEach (visitDependency collect) (dependencies pkg) out.

(** [collectTree(pkg, out)] with [depth] stack frames left. *)
Fixpoint collectTree (depth : nat) (pkg : Package) (out : list string)
    : result (list string) :=
  match depth with
  | 0 => StackOverflow
  | S depth' => collectBody (collectTree depth') pkg out
  end.

(** The three kinds of edges the walker follows. *)
Inductive edge : Package → Package → Prop :=
  | edge_devirt p q :
      isVirtualLocator p = true →
      map_get (storedPackages project) (devirtualizeLocator p) = Some q →
      edge p q
  | edge_depatch p q :
      String.prefix "patch:" (reference p) = true →
      map_get (storedPackages project) (parseLocator p) = Some q →
      edge p q
  | edge_dependency p d h q :
      d ∈ dependencies p →
      storedResolutions project !! descriptorHash d = Some h →
      map_get (storedPackages project) h = Some q →
      edge p q.

(** A package with an edge that leads nowhere. *)
Inductive dangling : Package → Prop :=
  | dangling_devirt p :
      isVirtualLocator p = true →
      map_get (storedPackages project) (devirtualizeLocator p) = None →
      dangling p
  | dangling_depatch p :
      String.prefix "patch:" (reference p) = true →
      map_get (storedPackages project) (parseLocator p) = None →
      dangling p
  | dangling_descriptor p d :
      d ∈ dependencies p →
      storedResolutions project !! descriptorHash d = None →
      dangling p
  | dangling_resolution p d h :
      d ∈ dependencies p →
      storedResolutions project !! descriptorHash d = Some h →
      map_get (storedPackages project) h = None →
      dangling p.

Definition reachable : Package → Package → Prop := rtc edge.

(** The targets of the edges of [p], in the order the walker takes them. *)
Definition successors (p : Package) : list Package :=
  (if isVirtualLocator p
   then option_list (map_get (storedPackages project) (devirtualizeLocator p))
   else [])
  ++ (if String.prefix "patch:" (reference p)
      then option_list (map_get (storedPackages project) (parseLocator p))
      else [])
  ++ omap (λ d, storedResolutions project !! descriptorHash d
                  ≫= map_get (storedPackages project))
       (dependencies p).

(** What a call that returns [out'] from [out] has done: it added the
    cache-entry keys of the packages reachable from [pkg], met no
    dangling edge, and kept the set duplicate-free. *)
Definition collected (pkg : Package) (out out' : list string) : Prop :=
  (∀ s, s ∈ out' ↔
        s ∈ out ∨ ∃ q, reachable pkg q ∧ stringifyLocator q = s
                       ∧ map_has cacheEntries s = true)
  ∧ (∀ q, reachable pkg q → ¬ dangling q)
  ∧ (NoDup out → NoDup out').

Definition isAssertion (msg : string) : Prop :=
  msg = assertLocator ∨ msg = assertDescriptor.

End Walker.

(** ** What a run reads from its surroundings *)

Inductive ExecOutcome : Type :=
  | ExecOk
  | ExecENOENT
  | ExecFailed (msg : string).

Record Env : Type := mkEnv {
  (* [xfs.realpathPromise(npath.toPortablePath(tmpdir()))] *)
  osTempDir : string;
  (* [cache.cwd] and [xfs.readdirPromise(cache.cwd)] *)
  cacheCwd : string;
  cacheFiles : list string;
  (* [hashUtils.checksumFile] *)
  checksumFile : string → result string;
  (* the directory handed out by [xfs.mktempPromise] *)
  mktempDir : string;
  (* [execUtils.execvp("nix-store", args, { strict: true })] *)
  execNixStore : list string → ExecOutcome
}.

(** ** The cache-entry index *)

Section Indexer.
Context `{YarnApi} (project : Project) (env : Env).

(** The body of the loop over [project.storedPackages.values()]. *)
Definition indexPackage (cacheEntries : JsMap CacheEntry) (pkg : Package)
    : result (JsMap CacheEntry) :=
  let checksum := storedChecksums project !! locatorHash pkg in
  match truthy (getLocatorPath pkg (truthy checksum)) with
  | None => Return cacheEntries
  | Some cachePath =>
      let filename := ppath_basename cachePath in
      if bool_decide (filename ∈ cacheFiles env) then
        let locatorStr := stringifyLocator pkg in
        sha512 ← match truthy checksum with
                 | Some checksum => Return (lastSegment checksum)
                 | None => checksumFile env cachePath
                 end;
        Return (map_set cacheEntries locatorStr (mkCacheEntry filename sha512))
      else Return cacheEntries
  end.

Definition buildCacheEntries : result (JsMap CacheEntry) :=
  forEach indexPackage (map_values (storedPackages project)) [].

(** The test of the loop, as a boolean. *)
Definition cached (pkg : Package) : bool :=
  match truthy (getLocatorPath pkg (truthy (storedChecksums project !! locatorHash pkg))) with
  | Some cachePath => bool_decide (ppath_basename cachePath ∈ cacheFiles env)
  | None => false
  end.

(** The package has a cache path and its file is in the cache folder. *)
Definition hasCachedContent (pkg : Package) : Prop :=
  ∃ cachePath,
    truthy (getLocatorPath pkg (truthy (storedChecksums project !! locatorHash pkg)))
      = Some cachePath
    ∧ ppath_basename cachePath ∈ cacheFiles env.

End Indexer.

Section Rendering.
Context `{YarnApi}.

Definition cacheEntryCode (kv : string * CacheEntry) : string :=
  json kv.1 +:+ " = { "
    +:+ join " " ["filename = " +:+ json (filename kv.2) +:+ ";";
                 "sha512 = " +:+ json (sha512 kv.2) +:+ ";"]
    +:+ " };" +:+ nl.

Definition cacheEntriesCode (cacheEntries : JsMap CacheEntry) : string :=
  foldl (λ code kv, code +:+ cacheEntryCode kv) ("cacheEntries = {" +:+ nl) cacheEntries
    +:+ "};".

End Rendering.

(** ** Isolated builds *)

Record Isolation : Type := mkIsolation {
  isolatedPackages : list Package;
  isolatedIntegration : list string;
  isolatedCode : list string
}.

Definition unsupportedLinker (nodeLinker : string) : string :=
  "The nodeLinker " +:+ nodeLinker +:+ " is not supported for isolated Nix builds".

Section Planner.
Context `{YarnApi} (project : Project) (cacheEntries : JsMap CacheEntry) (depth : nat).

Definition installLocationOf (pkg : Package) : string :=
  ppath_relative (cwd project)
    (ppath_join [pnpUnpluggedFolder (configuration project);
                 slugifyLocator pkg; getIdentVendorPath pkg]).

Definition isolatedPropOf (devirtPkg : Package) : string :=
  "isolated." +:+ json (stringifyLocator devirtPkg).

(** The text of [locators]: the sorted closure, one quoted line each. *)
Definition locatorsCode (closure : list string) : string :=
  join "" ((λ v, json v +:+ nl) <$> sort closure).

(** The entry pushed on [isolatedCode]. *)
Definition isolatedBuildCode (pkg devirtPkg : Package) (closure : list string) : string :=
  isolatedPropOf devirtPkg
    +:+ " = optionalOverride (args." +:+ ("override" +:+ upperCamelize (name pkg) +:+ "Attrs")
    +:+ " or null) (mkIsolatedBuild { "
    +:+ join " " ["pname = " +:+ json (name pkg) +:+ ";";
                 "version = " +:+ jsonNullable (version pkg) +:+ ";";
                 "locators = [" +:+ nl +:+ locatorsCode closure +:+ "];"]
    +:+ " });".

(** The five lines pushed on [isolatedIntegration] for one occurrence. *)
Definition injectionCode (pkg devirtPkg : Package) (installLocation : string) : list string :=
  ["echo 'injecting build for " +:+ name pkg +:+ "'";
   "yarn nixify inject-build \";
   "  " +:+ json (stringifyLocator pkg) +:+ " \";
   "  ${" +:+ isolatedPropOf devirtPkg +:+ "} \";
   "  " +:+ json installLocation].

(** The body of the loop over [project.storedBuildState.keys()]. *)
Definition planOccurrence (st : Isolation) (locatorHash : LocatorHash) : result Isolation :=
  match map_get (storedPackages project) locatorHash with
  | None => Throw assertLocator
  | Some pkg =>
      if negb (bool_decide (name pkg ∈ isolatedNixBuilds (configuration project)))
      then Return st
      else
        installLocation ←
          (if String.eqb (nodeLinker (configuration project)) "pnp"
           then Return (installLocationOf pkg)
           else Throw (unsupportedLinker (nodeLinker (configuration project))));
        devirtPkg ←
          (if isVirtualLocator pkg then
             match map_get (storedPackages project) (devirtualizeLocator pkg) with
             | None => Throw assertLocator
             | Some pkg => Return pkg
             end
           else Return pkg);
        st ←
          (if bool_decide (devirtPkg ∈ isolatedPackages st) then Return st
           else
             closure ← collectTree project cacheEntries depth pkg [];
             Return {| isolatedPackages := isolatedPackages st ++ [devirtPkg];
                       isolatedIntegration := isolatedIntegration st;
                       isolatedCode :=
                         isolatedCode st ++ [isolatedBuildCode pkg devirtPkg closure] |});
        let integration :=
          if Nat.eqb (List.length (isolatedIntegration st)) 0
          then isolatedIntegration st ++ ["# Copy in isolated builds."]
          else isolatedIntegration st in
        Return {| isolatedPackages := isolatedPackages st;
                  isolatedIntegration :=
                    integration ++ injectionCode pkg devirtPkg installLocation;
                  isolatedCode := isolatedCode st |}
  end.

Definition noIsolation : Isolation :=
  {| isolatedPackages := []; isolatedIntegration := []; isolatedCode := [] |}.

(** The loop, followed by the closing line of the integration snippet. *)
Definition planIsolation : result Isolation :=
  st ← forEach planOccurrence (map_keys (storedBuildState project)) noIsolation;
  Return (if Nat.ltb 0 (List.length (isolatedIntegration st))
          then {| isolatedPackages := isolatedPackages st;
                  isolatedIntegration :=
                    isolatedIntegration st ++ ["echo 'running yarn install'"];
                  isolatedCode := isolatedCode st |}
          else st).

(** An installed package named by the allow-list, as the loop sees it. *)
Record Occurrence : Type := mkOccurrence {
  occPkg : Package;
  occDevirt : Package
}.

Definition occurrenceOf (locatorHash : LocatorHash) : option (option Occurrence) :=
  pkg ← map_get (storedPackages project) locatorHash;
  if bool_decide (name pkg ∈ isolatedNixBuilds (configuration project)) then
    if isVirtualLocator pkg then
      devirtPkg ← map_get (storedPackages project) (devirtualizeLocator pkg);
      Some (Some (mkOccurrence pkg devirtPkg))
    else Some (Some (mkOccurrence pkg pkg))
  else Some None.

(** The occurrences among the keys, in the order of the keys; [None]
    when a key or a devirtualized locator is not registered. *)
Fixpoint occurrencesOf (keys : list LocatorHash) : option (list Occurrence) :=
  match keys with
  | [] => Some []
  | k :: keys' =>
      o ← occurrenceOf k;
      occs ← occurrencesOf keys';
      Some (match o with Some occ => occ :: occs | None => occs end)
  end.

(** The injection step of one occurrence. *)
Definition injectionOf (occ : Occurrence) : list string :=
  injectionCode (occPkg occ) (occDevirt occ) (installLocationOf (occPkg occ)).

(** The integration snippet before a step is pushed: its first line is
    added when it is still empty. *)
Definition withHeader (integration : list string) : list string :=
  if Nat.eqb (List.length integration) 0
  then integration ++ ["# Copy in isolated builds."]
  else integration.

(** The integration snippet for a list of occurrences. *)
Definition integrationOf (occs : list Occurrence) : list string :=
  match occs with
  | [] => []
  | _ => ["# Copy in isolated builds."] ++ concat (injectionOf <$> occs)
           ++ ["echo 'running yarn install'"]
  end.

(** [code] is the isolated build of [devirtPkg], made from one of [occs]. *)
Definition isolatedBuildOf (occs : list Occurrence) (devirtPkg : Package)
    (code : string) : Prop :=
  ∃ occ closure,
    occ ∈ occs ∧ occDevirt occ = devirtPkg
    ∧ collectTree project cacheEntries depth (occPkg occ) [] = Return closure
    ∧ code = isolatedBuildCode (occPkg occ) devirtPkg closure.

End Planner.

(** ** The template renderer *)

Inductive TmplNode : Type :=
  | TText (text : string)
  | TSlot (slot : string)
  | TIf (flag : string) (body : string).

Inductive TmplVal : Type :=
  | VStr (s : string)
  | VBool (b : bool).

(** Modelled from the spec: [renderTmpl] of [./textUtils], which is not
    among the sources.  A named slot is replaced by the string bound to
    it; a conditional block, together with its [IF]/[ENDIF] lines, is
    left out unless its flag is bound to [true], in which case its body
    is kept. *)
Definition renderNode (vars : JsMap TmplVal) (node : TmplNode) : string :=
  match node with
  | TText text => text
  | TSlot slot =>
      match map_get vars slot with
      | Some (VStr s) => s
      | _ => "@@" +:+ slot +:+ "@@"
      end
  | TIf flag body =>
      match map_get vars flag with
      | Some (VBool true) => body
      | _ => ""
      end
  end.

(** Modelled from the spec: [renderTmpl] of [./textUtils], applied to a
    template cut at its slots and conditional blocks; the pieces are
    rendered in order and concatenated. *)
Definition renderTmpl (tmpl : list TmplNode) (vars : JsMap TmplVal) : string :=
  join "" (renderNode vars <$> tmpl).

(** The literal text of [yarn-project.nix.in] between its slots. *)
Record TemplateText : Type := mkTemplateText {
  (* from the first line to [yarnPath = ./] *)
  txtHeader : string;
  (* from the end of the [cacheFolder] line to the line before the [IF] *)
  txtCommon : string;
  (* the lines between [IF] and [ENDIF]: mkCacheBuilderForLocators, mkIsolatedBuild *)
  txtIsolatedSupport : string;
  (* from the line after [ENDIF] to [name = ] *)
  txtProjectHead : string;
  (* from the end of the [name] line to the line before the integration slot *)
  txtConfigure : string;
  (* from the line after the integration slot to the line before the entries slot *)
  txtPhases : string;
  (* tmpl/default.nix.in *)
  defaultExprTmpl : string
}.

Definition projectExprTmpl (txt : TemplateText) : list TmplNode :=
  [ TText (txtHeader txt); TSlot "YARN_PATH";
    TText (";" +:+ nl +:+ "  lockfile = ./"); TSlot "LOCKFILE";
    TText (";" +:+ nl +:+ "  cacheFolder = "); TSlot "CACHE_FOLDER";
    TText (txtCommon txt);
    TIf "NEED_ISOLATED_BUILD_SUPPRORT" (txtIsolatedSupport txt);
    TText (txtProjectHead txt); TSlot "PROJECT_NAME";
    TText (txtConfigure txt); TSlot "ISOLATED_INTEGRATION";
    TText (txtPhases txt); TSlot "CACHE_ENTRIES";
    TText nl; TSlot "ISOLATED";
    TText (nl +:+ "in optionalOverride overrideAttrs project" +:+ nl) ].

(** ** The world a run acts on *)

Inductive Report : Type :=
  | ReportInfo (msg : string)
  | ReportWarning (msg : string)
  | ReportError (msg : string).

(** What the preload step does outside the project. *)
Inductive Effect : Type :=
  | Mkdir (path : string)
  | CopyFile (src dst : string)
  | Exec (args : list string)
  | RemoveTemp (path : string).

(** [fs] maps every existing path to its content; a write to a path
    succeeds and replaces the content. *)
Record World : Type := mkWorld {
  fs : gmap string string;
  reports : list Report;
  effects : list Effect
}.

Definition M (A : Type) : Type := World → result A * World.

Definition ret {A} (a : A) : M A := λ w, (Return a, w).
Definition raise {A} (r : result A) : M A := λ w, (r, w).
Definition bind {A B} (m : M A) (k : A → M B) : M B :=
  λ w, match m w with
       | (Return a, w') => k a w'
       | (Throw msg, w') => (Throw msg, w')
       | (StackOverflow, w') => (StackOverflow, w')
       end.

#[global] Instance M_mbind : MBind M := λ A B k m, bind m k.
#[global] Instance M_mret : MRet M := @ret.

Definition report (r : Report) : M unit :=
  λ w, (Return tt, {| fs := fs w; reports := reports w ++ [r]; effects := effects w |}).
Definition effect (e : Effect) : M unit :=
  λ w, (Return tt, {| fs := fs w; reports := reports w; effects := effects w ++ [e] |}).
Definition existsSync (path : string) : M bool :=
  λ w, (Return (bool_decide (is_Some (fs w !! path))), w).
Definition writeFile (path content : string) : M unit :=
  λ w, (Return tt, {| fs := <[path := content]> (fs w);
                      reports := reports w; effects := effects w |}).
Definition when (b : bool) (m : M unit) : M unit := if b then m else ret tt.

Fixpoint forEachM {A} (body : A → M unit) (xs : list A) : M unit :=
  match xs with
  | [] => ret tt
  | x :: xs' => body x;; forEachM body xs'
  end.

Definition isError (r : Report) : bool :=
  match r with ReportError _ => true | _ => false end.

(** [report.exitCode()]: non-zero once an error was reported. *)
Definition exitCode (w : World) : nat :=
  if existsb isError (reports w) then 1 else 0.

(** [try { return await body } finally { cleanup }]. *)
Definition finally {A} (body : M A) (cleanup : M unit) : M A :=
  λ w, let (r, w') := body w in (r, (cleanup w').2).

(** A step that returns after adding reports and nothing else. *)
Definition only_reports (m : M unit) : Prop :=
  ∀ w, ∃ rs, m w = (Return tt, {| fs := fs w; reports := reports w ++ rs;
                                  effects := effects w |}).

(** A step that leaves every file as it is. *)
Definition keeps_fs {A} (m : M A) : Prop := ∀ w, fs (m w).2 = fs w.

(** ** The generator that runs after an install *)

Section Generator.
Context `{YarnApi} (txt : TemplateText) (project : Project) (env : Env) (depth : nat).

Definition outsideProject (what path : string) : string :=
  "The " +:+ what +:+ " " +:+ path
    +:+ " is outside the project - it may not be reachable by the Nix build".

(** [yarnPath] and [cacheFolder] after the sanity checks. *)
Definition yarnPathOf : string :=
  let yarnPathAbs := yarnPath (configuration project) in
  let yarnPath := ppath_relative (cwd project) yarnPathAbs in
  if String.prefix "../" yarnPath then yarnPathAbs else yarnPath.

Definition cacheFolderOf : string :=
  let cacheFolderAbs := cacheFolder (configuration project) in
  let cacheFolder := ppath_relative (cwd project) cacheFolderAbs in
  if String.prefix "../" cacheFolder then cacheFolderAbs else cacheFolder.

Definition sanityChecks : M unit :=
  when (String.prefix "../"
          (ppath_relative (cwd project) (yarnPath (configuration project))))
    (report (ReportWarning
       (outsideProject "Yarn path" (yarnPath (configuration project)))));;
  when (String.prefix "../"
          (ppath_relative (cwd project) (cacheFolder (configuration project))))
    (report (ReportWarning
       (outsideProject "cache folder" (cacheFolder (configuration project)))));;
  forEachM (λ source,
      when (negb (String.prefix "<" source)
            && String.prefix "../" (ppath_relative (cwd project) source))
        (report (ReportWarning (outsideProject "config file" source))))
    (sources (configuration project)).

Definition lockfileRel : string :=
  ppath_relative (ppath_dirname (nixExprPath (configuration project)))
    (lockfileFilename (configuration project)).
Definition yarnPathRel : string :=
  ppath_relative (ppath_dirname (nixExprPath (configuration project))) yarnPathOf.

Definition projectName : string :=
  match manifestName project with
  | Some ident => stringifyIdent ident
  | None => "workspace"
  end.

(** The variables handed to [renderTmpl]. *)
Definition templateVars (cacheEntries : JsMap CacheEntry) (iso : Isolation)
    : JsMap TmplVal :=
  [ ("PROJECT_NAME", VStr (json projectName));
    ("YARN_PATH", VStr yarnPathRel);
    ("LOCKFILE", VStr lockfileRel);
    ("CACHE_FOLDER", VStr (json cacheFolderOf));
    ("CACHE_ENTRIES", VStr (cacheEntriesCode cacheEntries));
    ("ISOLATED", VStr (join nl (isolatedCode iso)));
    ("ISOLATED_INTEGRATION",
       VStr (indent "      " (join nl (isolatedIntegration iso))));
    ("NEED_ISOLATED_BUILD_SUPPRORT",
       VBool (Nat.ltb 0 (List.length (isolatedIntegration iso)))) ].

(** The cache entries and the text of the Nix expression. *)
Definition projectExpr : result (JsMap CacheEntry * string) :=
  cacheEntries ← buildCacheEntries project env;
  iso ← planIsolation project cacheEntries depth;
  Return (cacheEntries, renderTmpl (projectExprTmpl txt) (templateVars cacheEntries iso)).

Definition defaultExprPath : string := ppath_join [cwd project; "default.nix"].
Definition flakeExprPath : string := ppath_join [cwd project; "flake.nix"].

(** Create a wrapper if it does not exist yet. *)
Definition writeDefaultExpr : M unit :=
  when (generateDefaultNix (configuration project))
    (hasDefault ← existsSync defaultExprPath;
     hasFlake ← existsSync flakeExprPath;
     when (negb hasDefault && negb hasFlake)
       (writeFile defaultExprPath (defaultExprTmpl txt);;
        report (ReportInfo
          "A minimal default.nix was created. You may want to customize it.")))%bool.

(** Whether [path] exists while the entries are staged: it is the
    directory [tempDir] that [xfs.mktempPromise] made, one of the
    directories [made] in it since, or a path of the file system. *)
Definition existsAt (w : World) (tempDir : string) (made : list string)
    (path : string) : bool :=
  bool_decide (path = tempDir) || bool_decide (path ∈ made)
  || bool_decide (is_Some (fs w !! path)).

Definition pathExists (tempDir : string) (made : list string) (path : string) : M bool :=
  λ w, (Return (existsAt w tempDir made path), w).

(** [xfs.mkdirPromise(path)]: fails on a path that exists and on a path
    whose parent does not. *)
Definition mkdir (tempDir : string) (made : list string) (path : string) : M unit :=
  present ← pathExists tempDir made path;
  if (present : bool)
  then raise (Throw ("EEXIST: file already exists, mkdir '" +:+ path +:+ "'"))
  else
    parent ← pathExists tempDir made (ppath_dirname path);
    if (parent : bool) then effect (Mkdir path)
    else raise (Throw ("ENOENT: no such file or directory, mkdir '" +:+ path +:+ "'")).

(** The loop that stages the entries missing from the Nix store;
    [staged] pairs each staged file with its directory. *)
Definition stageEntry (tempDir : string) (staged : list (string * string))
    (kv : string * CacheEntry) : M (list (string * string)) :=
  let name := sanitizeDerivationName kv.1 in
  let storePath := computeFixedOutputStorePath name "sha512" (sha512 kv.2) in
  inStore ← existsSync storePath;
  if (inStore : bool) then mret staged
  else
    let subdir := ppath_join [tempDir; slice0 7 (sha512 kv.2)] in
    mkdir tempDir staged.*1 subdir;;
    let src := ppath_join [cacheCwd env; filename kv.2] in
    let dst := ppath_join [subdir; name] in
    effect (CopyFile src dst);;
    mret (staged ++ [(subdir, dst)]).

Fixpoint stageEntries (tempDir : string) (staged : list (string * string))
    (entries : JsMap CacheEntry) : M (list (string * string)) :=
  match entries with
  | [] => mret staged
  | kv :: entries' =>
      staged' ← stageEntry tempDir staged kv;
      stageEntries tempDir staged' entries'
  end.

(** [while (toPreload.length !== 0) { batch = toPreload.splice(0, 100); ... }];
    the outcome is that of the first call that fails. *)
Fixpoint preloadBatches (rounds : nat) (toPreload : list string) : M ExecOutcome :=
  match rounds, toPreload with
  | S rounds', _ :: _ =>
      let args := ["--add-fixed"; "sha512"] ++ take 100 toPreload in
      effect (Exec ("nix-store" :: args));;
      match execNixStore env args with
      | ExecOk => preloadBatches rounds' (drop 100 toPreload)
      | failure => mret failure
      end
  | _, _ => mret ExecOk
  end.

(** Preload the cache entries into the Nix store. *)
Definition preload (cacheEntries : JsMap CacheEntry) : M unit :=
  hasStore ← existsSync "/nix/store";
  when (enableNixPreload (configuration project) && hasStore)
    (finally
       (staged ← stageEntries (mktempDir env) [] cacheEntries;
        let toPreload := staged.*2 in
        outcome ← preloadBatches (List.length toPreload) toPreload;
        match outcome with
        | ExecOk =>
            when (negb (Nat.eqb (List.length toPreload) 0))
              (report (ReportInfo
                 ("Preloaded " +:+ pretty (List.length toPreload)
                    +:+ " packages into the Nix store")))
        | ExecENOENT => mret tt
        | ExecFailed msg => raise (Throw msg)
        end)
       (effect (RemoveTemp (mktempDir env))))%bool.

(** The default export: the generator function that runs after [yarn install]. *)
Definition nixify : M unit :=
  if String.prefix (osTempDir env) (cwd project) then
    report (ReportInfo
      ("Skipping Nixify, because " +:+ cwd project
         +:+ " appears to be a temporary directory"))
  else
    sanityChecks;;
    rendered ← raise projectExpr;
    writeFile (nixExprPath (configuration project)) rendered.2;;
    writeDefaultExpr;;
    preload rendered.1.

End Generator.

(** ** The [nixify] command of [src/index.ts] *)



(** ** A small project to run the definitions on *)

Definition dquote : string := String (Ascii.ascii_of_nat 34) "".

Definition exampleDevirt (p : Package) : LocatorHash :=
  if String.eqb (locatorHash p) "hV1" then "hN"
  else if String.eqb (locatorHash p) "hV2" then "hN"
  else if String.eqb (locatorHash p) "hVgone" then "hGone"
  else "".

Definition exampleDepatch (p : Package) : LocatorHash :=
  if String.eqb (locatorHash p) "hP" then "hX" else "".

(** Paths for the examples: [dirname], and [relative] in a process with
    the working directory [cwd]. *)
Fixpoint dirname_go (s : string) : option string :=
  match s with
  | "" => None
  | String a s' =>
      match dirname_go s' with
      | Some d => Some (String a d)
      | None => if Ascii.eqb a "/"%char then Some "" else None
      end
  end.

Definition exampleDirname (s : string) : string :=
  match dirname_go s with
  | Some "" => "/"
  | Some d => d
  | None => "."
  end.

(** [ppath.join] of segments without dots: empty segments are left out. *)
Definition exampleJoin (segments : list string) : string :=
  join "/" (filter (λ segment, segment ≠ "") segments).

Definition exampleResolve (cwd path : string) : string :=
  if String.prefix "/" path then path else cwd +:+ "/" +:+ path.

Definition exampleRelative (cwd from to : string) : string :=
  let from := exampleResolve cwd from in
  let to := exampleResolve cwd to in
  if String.eqb from to then ""
  else if String.prefix (from +:+ "/") to
  then String.substring (String.length from + 1) (String.length to) to
  else ".." +:+ to.

#[local] Instance exampleApi : YarnApi := {|
  stringifyLocator p := name p +:+ "@" +:+ reference p;
  stringifyIdent i := identName i;
  isVirtualLocator p := String.prefix "virtual:" (reference p);
  devirtualizeLocator := exampleDevirt;
  slugifyLocator p := name p +:+ "-" +:+ locatorHash p;
  getIdentVendorPath p := "node_modules/" +:+ name p;
  parseLocator := exampleDepatch;
  getLocatorPath p _ :=
    if String.prefix "npm:" (reference p) || String.prefix "patch:" (reference p)
    then Some ("/proj/.yarn/cache/" +:+ locatorHash p +:+ ".zip")
    else None;
  process_cwd := "/proj";
  ppath_relative_in _ _ to := to;
  ppath_join := exampleJoin;
  ppath_dirname := exampleDirname;
  ppath_basename := lastSegment;
  json s := dquote +:+ s +:+ dquote;
  indent prefix text := if String.eqb text "" then "" else prefix +:+ text;
  upperCamelize s := s;
  sanitizeDerivationName s := s;
  computeFixedOutputStorePath name _ hash := "/nix/store/" +:+ hash +:+ "-" +:+ name
|}.

(** The same functions in a process with the working directory [cwd],
    with a [relative] that resolves its arguments. *)
Definition processApi (cwd : string) : YarnApi := {|
  stringifyLocator := stringifyLocator (YarnApi := exampleApi);
  stringifyIdent := stringifyIdent (YarnApi := exampleApi);
  isVirtualLocator := isVirtualLocator (YarnApi := exampleApi);
  devirtualizeLocator := devirtualizeLocator (YarnApi := exampleApi);
  slugifyLocator := slugifyLocator (YarnApi := exampleApi);
  getIdentVendorPath := getIdentVendorPath (YarnApi := exampleApi);
  parseLocator := parseLocator (YarnApi := exampleApi);
  getLocatorPath := getLocatorPath (YarnApi := exampleApi);
  process_cwd := cwd;
  ppath_relative_in := exampleRelative;
  ppath_join := exampleJoin;
  ppath_dirname := exampleDirname;
  ppath_basename := lastSegment;
  json := json (YarnApi := exampleApi);
  indent := indent (YarnApi := exampleApi);
  upperCamelize := upperCamelize (YarnApi := exampleApi);
  sanitizeDerivationName := sanitizeDerivationName (YarnApi := exampleApi);
  computeFixedOutputStorePath := computeFixedOutputStorePath (YarnApi := exampleApi)
|}.

#[local] Instance pathApi : YarnApi := processApi "/proj".

Definition pkgApp : Package :=
  mkPackage "hW" "app" "workspace:." (Some "0.0.0")
    [mkDescriptor "dV1"; mkDescriptor "dV2"].
Definition pkgV1 : Package :=
  mkPackage "hV1" "native-lib" "virtual:ctx1#npm:1.0.0" (Some "1.0.0")
    [mkDescriptor "dD"].
Definition pkgV2 : Package :=
  mkPackage "hV2" "native-lib" "virtual:ctx2#npm:1.0.0" (Some "1.0.0")
    [mkDescriptor "dD"].
Definition pkgN : Package :=
  mkPackage "hN" "native-lib" "npm:1.0.0" (Some "1.0.0") [mkDescriptor "dD"].
Definition pkgD : Package :=
  mkPackage "hD" "dep" "npm:2.0.0" (Some "2.0.0") [mkDescriptor "dP"].
Definition pkgP : Package :=
  mkPackage "hP" "left-pad" "patch:left-pad@npm:1.3.0#fix.patch" (Some "1.3.0") [].
Definition pkgX : Package :=
  mkPackage "hX" "left-pad" "npm:1.3.0" (Some "1.3.0") [].

Definition exampleConfiguration (linker : string) (allow : list string) : Configuration :=
  {| yarnPath := ".yarn/releases/yarn.cjs";
     cacheFolder := ".yarn/cache";
     sources := ["<environment>"; ".yarnrc.yml"];
     nixExprPath := "/proj/yarn-project.nix";
     lockfileFilename := "yarn.lock";
     isolatedNixBuilds := allow;
     nodeLinker := linker;
     pnpUnpluggedFolder := ".yarn/unplugged";
     generateDefaultNix := true;
     enableNixPreload := true |}.

Definition exampleProject (dir linker : string) (allow : list string) : Project :=
  {| configuration := exampleConfiguration linker allow;
     cwd := dir;
     storedPackages :=
       [("hW", pkgApp); ("hV1", pkgV1); ("hV2", pkgV2); ("hN", pkgN);
        ("hD", pkgD); ("hP", pkgP); ("hX", pkgX)];
     storedResolutions :=
       {[ "dV1" := "hV1"; "dV2" := "hV2"; "dD" := "hD"; "dP" := "hP" ]};
     storedChecksums := {[ "hN" := "8/aaaaaaaa"; "hX" := "8/cccccccc" ]};
     storedBuildState := [("hV1", "state1"); ("hV2", "state2")];
     manifestName := Some (mkIdent None "app") |}.

Definition nativeProject : Project := exampleProject "/proj" "pnp" ["native-lib"].

Definition exampleEnv : Env :=
  {| osTempDir := "/tmp";
     cacheCwd := "/proj/.yarn/cache";
     cacheFiles := ["hN.zip"; "hD.zip"; "hP.zip"; "hX.zip"; "stale.zip"];
     checksumFile path := Return ("f00d" +:+ lastSegment path);
     mktempDir := "/tmp/xfs-0001";
     execNixStore _ := ExecOk |}.

Definition exampleText : TemplateText :=
  {| txtHeader := "let yarnPath = ./";
     txtCommon := ";" +:+ nl;
     txtIsolatedSupport := "  mkIsolatedBuild = null;" +:+ nl;
     txtProjectHead := "  project = { name = ";
     txtConfigure := ";" +:+ nl;
     txtPhases := nl +:+ "  };" +:+ nl;
     defaultExprTmpl := "import ./yarn-project.nix" |}.

Definition emptyWorld : World := {| fs := ∅; reports := []; effects := [] |}.

(** A project directory in which a customized wrapper already exists. *)
Definition customWorld : World :=
  {| fs := {[ "/proj/default.nix" := "{ pkgs ? import <nixpkgs> { } }: pkgs.hello" ]};
     reports := []; effects := [] |}.

(** The packages of the example by their distance from the leaves. *)
Definition exampleRank (p : Package) : nat :=
  if String.eqb (locatorHash p) "hW" then 5
  else if String.eqb (locatorHash p) "hV1" then 4
  else if String.eqb (locatorHash p) "hV2" then 4
  else if String.eqb (locatorHash p) "hN" then 3
  else if String.eqb (locatorHash p) "hD" then 2
  else if String.eqb (locatorHash p) "hP" then 1
  else 0.

Definition nativeEntries : JsMap CacheEntry :=
  [("native-lib@npm:1.0.0", mkCacheEntry "hN.zip" "aaaaaaaa");
   ("dep@npm:2.0.0", mkCacheEntry "hD.zip" "f00dhD.zip");
   ("left-pad@patch:left-pad@npm:1.3.0#fix.patch", mkCacheEntry "hP.zip" "f00dhP.zip");
   ("left-pad@npm:1.3.0", mkCacheEntry "hX.zip" "cccccccc")].

(** The cycle of two packages: [a] depends on [b], [b] on [a]. *)
Definition pkgA : Package := mkPackage "hA" "a" "npm:1.0.0" (Some "1.0.0") [mkDescriptor "dB"].
Definition pkgB : Package := mkPackage "hB" "b" "npm:1.0.0" (Some "1.0.0") [mkDescriptor "dA"].

Definition cycleProject : Project :=
  {| configuration := exampleConfiguration "pnp" ["a"];
     cwd := "/proj";
     storedPackages := [("hA", pkgA); ("hB", pkgB)];
     storedResolutions := {[ "dA" := "hA"; "dB" := "hB" ]};
     storedChecksums := ∅;
     storedBuildState := [("hA", "state")];
     manifestName := None |}.



Definition cycleEntries : JsMap CacheEntry :=
  [("a@npm:1.0.0", mkCacheEntry "hA.zip" "aa"); ("b@npm:1.0.0", mkCacheEntry "hB.zip" "bb")].



(** ** Further notions used to state properties *)

(** The first of the occurrences that devirtualizes to [devirtPkg]. *)
Definition firstOccurrence (occs : list Occurrence) (devirtPkg : Package)
    : option Occurrence :=
  head (filter (λ occ, occDevirt occ = devirtPkg) occs).

Section Consistency.
Context `{YarnApi} (project : Project).

(** Every edge of [p] leads to a registered package. *)
Definition consistent (p : Package) : bool :=
  (if isVirtualLocator p
   then bool_decide (is_Some (map_get (storedPackages project) (devirtualizeLocator p)))
   else true)
  && (if String.prefix "patch:" (reference p)
      then bool_decide (is_Some (map_get (storedPackages project) (parseLocator p)))
      else true)
  && forallb (λ d, bool_decide (is_Some
                (storedResolutions project !! descriptorHash d
                   ≫= map_get (storedPackages project))))
       (dependencies p).

(** The cache path the index loop derives for a package. *)
Definition cachePathOf (pkg : Package) : option string :=
  truthy (getLocatorPath pkg (truthy (storedChecksums project !! locatorHash pkg))).

End Consistency.

Section FirstOccurrence.
Context `{YarnApi} (project : Project) (cacheEntries : JsMap CacheEntry) (depth : nat).

(** [code] is the isolated build of [devirtPkg], made from the first of
    [occs] that devirtualizes to it. *)
Definition isolatedBuildOfFirst (occs : list Occurrence) (devirtPkg : Package)
    (code : string) : Prop :=
  ∃ occ closure,
    firstOccurrence occs devirtPkg = Some occ
    ∧ collectTree project cacheEntries depth (occPkg occ) [] = Return closure
    ∧ code = isolatedBuildCode (occPkg occ) devirtPkg closure.

End FirstOccurrence.

Section Staging.
Context `{YarnApi} (env : Env) (tempDir : string).

(** The paths the staging loop derives from one cache entry. *)
Definition storePathOf (kv : string * CacheEntry) : string :=
  computeFixedOutputStorePath (sanitizeDerivationName kv.1) "sha512" (sha512 kv.2).
Definition subdirOf (kv : string * CacheEntry) : string :=
  ppath_join [tempDir; slice0 7 (sha512 kv.2)].
Definition srcOf (kv : string * CacheEntry) : string :=
  ppath_join [cacheCwd env; filename kv.2].
Definition dstOf (kv : string * CacheEntry) : string :=
  ppath_join [subdirOf kv; sanitizeDerivationName kv.1].

(** What staging one entry does. *)
Definition stagingOf (kv : string * CacheEntry) : list Effect :=
  [Mkdir (subdirOf kv); CopyFile (srcOf kv) (dstOf kv)].

End Staging.

(** [env] with another [hashUtils.checksumFile]. *)
Definition withChecksumFile (env : Env) (checksumFile' : string → result string) : Env :=
  {| osTempDir := osTempDir env;
     cacheCwd := cacheCwd env;
     cacheFiles := cacheFiles env;
     checksumFile := checksumFile';
     mktempDir := mktempDir env;
     execNixStore := execNixStore env |}.

(** [env] with another outcome of [nix-store]. *)
Definition withExecNixStore (env : Env) (exec : list string → ExecOutcome) : Env :=
  {| osTempDir := osTempDir env;
     cacheCwd := cacheCwd env;
     cacheFiles := cacheFiles env;
     checksumFile := checksumFile env;
     mktempDir := mktempDir env;
     execNixStore := exec |}.

(** A step that adds reports, none of them an error. *)
Definition reports_no_error {A} (m : M A) : Prop :=
  ∀ w, ∃ rs, reports (m w).2 = reports w ++ rs ∧ Forall (λ r, isError r = false) rs.

(** The [nix-store] call made for one batch. *)
Definition execOfBatch (batch : list string) : Effect :=
  Exec ("nix-store" :: "--add-fixed" :: "sha512" :: batch).

(** Further examples: a cache whose files cannot be read, and a project
    whose cached packages all have a stored checksum. *)
Definition unreadableEnv : Env :=
  withChecksumFile exampleEnv (λ path, Throw ("EACCES: permission denied, open '" +:+ path +:+ "'")).

Definition checksummedProject : Project :=
  {| configuration := exampleConfiguration "pnp" [];
     cwd := "/proj";
     storedPackages := [("hW", pkgApp); ("hN", pkgN); ("hX", pkgX)];
     storedResolutions := ∅;
     storedChecksums := {[ "hN" := "8/aaaaaaaa"; "hX" := "8/cccccccc" ]};
     storedBuildState := [];
     manifestName := None |}.

Definition storeWorld : World :=
  {| fs := {[ "/nix/store" := ""; "/nix/store/aaaaaaaa-native-lib@npm:1.0.0" := "" ]};
     reports := []; effects := [] |}.




(** Two cache entries whose hashes share their first seven digits. *)
Definition collidingEntries : JsMap CacheEntry :=
  [("typescript@npm:5.0.0", mkCacheEntry "t1.zip" "0123456aaaa");
   ("typescript@patch:typescript@npm:5.0.0#fix", mkCacheEntry "t2.zip" "0123456bbbb")].

(** A cache entry whose hash is empty. *)
Definition hashlessEntries : JsMap CacheEntry :=
  [("broken@npm:1.0.0", mkCacheEntry "b0.zip" "")].

(** The entries the staging loop does not find in the Nix store. *)
Definition missingFromStore `{YarnApi} (w : World) (entries : JsMap CacheEntry)
    : list (string * CacheEntry) :=
  filter (λ kv, fs w !! storePathOf kv = None) (entries : list (string * CacheEntry)).

(** ** The other statements and commands of [src/index.ts] *)

(** Functions of [@yarnpkg/plugin-pnp], [@yarnpkg/fslib] and of JS that
    the commands call. *)
Class CommandApi : Type := {
  (* getPnpPath(project).main *)
  getPnpPath : Project → string;
  npath_toPortablePath : string → string;
  (* text.replace(pattern, replacement) with a string pattern *)
  replace : string → string → string → string;
  JSON_stringify : string → string;
  trim : string → string
}.

(** What the [nixify] command reads from its surroundings: the names in
    a directory, and the output of a strict [nix-hash] call or the error
    it throws. *)
Record CommandEnv : Type := mkCommandEnv {
  readdirSync : string → list string;
  execNixHash : list string → result string
}.

Section NixifyCommand.
Context `{YarnApi} `{CommandApi}.
Context (defaultExprTmpl projectExprTmpl : string) (project : Project) (env : CommandEnv).

(** [yarnPath]: the Yarn path relative to the project. *)
Definition yarnPathInProject : string :=
  ppath_relative (cwd project) (yarnPath (configuration project)).

Definition lockfilePath : string :=
  ppath_join [cwd project; lockfileFilename (configuration project)].
Definition pluginsDir : string := ppath_join [cwd project; ".yarn/plugins"].
Definition projectExprPath : string := ppath_join [cwd project; "yarn-project.nix"].

Definition yarnPathOutside : Report :=
  ReportError ("The Yarn path " +:+ yarnPath (configuration project)
    +:+ " is outside the project directory - it cannot be reached by the Nix build").
Definition notInstalled : Report :=
  ReportError ("The project in " +:+ cwd project
    +:+ "/package.json doesn't seem to have been installed - running an install there might help").
Definition ignoredPath (inputPath : string) : Report :=
  ReportWarning ("The path " +:+ inputPath
    +:+ " was ignored, because it cannot be reached by the Nix build").

(** List files the derivation will depend on; [hasPlugins] tells
    whether the plugins directory exists. *)
Definition yarnClosureInput (hasPlugins : bool) : list string :=
  let input :=
    foldl set_add []
      ["package.json"; lockfileFilename (configuration project); yarnPathInProject] in
  let input :=
    foldl (λ input source, if String.prefix "<" source then input else set_add input source)
      input (sources (configuration project)) in
  if hasPlugins then
    foldl (λ input filename, set_add input (ppath_join [pluginsDir; filename]))
      input (readdirSync env pluginsDir)
  else input.

(** [while (dir !== ".") { entries.add("directory:" + dir); dir = ppath.dirname(dir) }];
    [None] when the loop has not ended after [fuel] rounds. *)
Fixpoint addDirectories (fuel : nat) (dir : string) (entries : list string)
    : option (list string) :=
  if String.eqb dir "." then Some entries
  else match fuel with
       | 0 => None
       | S fuel' =>
           addDirectories fuel' (ppath_dirname dir) (set_add entries ("directory:" +:+ dir))
       end.

(** Build Nix [filterSource] entries to match on: the loop over the
    inputs, threading the entries and the warnings reported so far. *)
Fixpoint yarnClosureEntries (fuel : nat) (inputs : list string)
    (acc : list string * list Report) : option (list string * list Report) :=
  match inputs with
  | [] => Some acc
  | inputPath :: inputs' =>
      let relativePath := ppath_relative (cwd project) inputPath in
      if String.prefix ".." relativePath then
        yarnClosureEntries fuel inputs' (acc.1, acc.2 ++ [ignoredPath inputPath])
      else
        match addDirectories fuel (ppath_dirname relativePath)
                (set_add acc.1 ("regular:" +:+ relativePath)) with
        | Some entries => yarnClosureEntries fuel inputs' (entries, acc.2)
        | None => None
        end
  end.

(** Entries that hold, with every directory, its parents up to [.] *)
Definition holdsParents (entries : list string) : Prop :=
  ∀ d, "directory:" +:+ d ∈ entries →
    d ≠ "." ∧ (ppath_dirname d ≠ "." → "directory:" +:+ ppath_dirname d ∈ entries).

(** What [ppath.dirname] does to a path that is not absolute: it
    answers [.] or a shorter path that is not absolute either. *)
Definition dirnameShortens : Prop :=
  ∀ path, String.prefix "/" path = false →
    ppath_dirname path = "."
    ∨ (String.length (ppath_dirname path) < String.length path
       ∧ String.prefix "/" (ppath_dirname path) = false).

(** The inputs the entries loop passes over. *)
Definition unreachableInputs (inputs : list string) : list string :=
  filter (λ inputPath, String.prefix ".." (ppath_relative (cwd project) inputPath) = true)
    inputs.

(** Render the Nix expression. *)
Definition renderProjectExpr (cacheHash : string) (entries : list string) : string :=
  replace
    (replace
       (replace
          (replace projectExprTmpl "@@PROJECT_NAME@@" (JSON_stringify (projectName project)))
          "@@OFFLINE_CACHE_HASH@@" (JSON_stringify cacheHash))
       "@@YARN_PATH@@" (JSON_stringify yarnPathInProject))
    "@@YARN_CLOSURE_ENTRIES@@"
    ("[ " +:+ join " " (JSON_stringify <$> entries) +:+ " ]").

Definition nixHashArgs : list string :=
  ["--type"; "sha256"; "--base32"; cacheFolder (configuration project)].

(** The statements of [generate] from the [nix-hash] call on. *)
Definition writeExpressions (entries : list string) : M unit :=
  hasherResult ← raise (execNixHash env nixHashArgs);
  let cacheHash := trim hasherResult in
  writeFile projectExprPath (renderProjectExpr cacheHash entries);;
  report (ReportInfo ("Wrote: " +:+ projectExprPath));;
  hasDefault ← existsSync (defaultExprPath project);
  when (negb hasDefault)
    (writeFile (defaultExprPath project) defaultExprTmpl;;
     report (ReportInfo ("Wrote: " +:+ defaultExprPath project))).

(** Whether the project looks installed. *)
Definition installed (w : World) : bool :=
  bool_decide (is_Some (fs w !! lockfilePath))
  && bool_decide (is_Some (fs w !! getPnpPath project)).

(** The statements of [generate] below the [nodeLinker] check; [None]
    when the directory loop has not ended after [fuel] rounds. *)
Definition generateBody (fuel : nat) (w : World) : option (result unit * World) :=
  if String.prefix "." yarnPathInProject then Some (report yarnPathOutside w)
  else if negb (installed w) then Some (report notInstalled w)
  else
    match yarnClosureEntries fuel
            (yarnClosureInput (bool_decide (is_Some (fs w !! pluginsDir)))) ([], []) with
    | Some (entries, warnings) =>
        Some ((forEachM report warnings;; writeExpressions entries) w)
    | None => None
    end.

(** The whole of [generate]. *)
Definition generateWhole (fuel : nat) (w : World) : option (result unit * World) :=
  if negb (String.eqb (nodeLinker (configuration project)) "pnp") then
    Some (report (ReportError
            "Only 'pnp' is currently supported for the 'nodeLinker' setting.") w)
  else generateBody fuel w.

End NixifyCommand.

(** The directory [install-bin] writes to: contents and modes of its files. *)
Record BinDir : Type := mkBinDir {
  binFiles : gmap string string;
  binModes : gmap string N
}.

Definition writeFileSync (path content : string) (d : BinDir) : BinDir :=
  {| binFiles := <[path := content]> (binFiles d); binModes := binModes d |}.
Definition chmodSync (path : string) (mode : N) (d : BinDir) : BinDir :=
  {| binFiles := binFiles d; binModes := <[path := mode]> (binModes d) |}.

Section InstallBinCommand.
Context `{YarnApi} `{CommandApi} (binTmpl : string) (project : Project).

Definition binPathOf (binDir name : string) : string :=
  ppath_join [npath_toPortablePath binDir; name].

Definition binScript (scriptInput : string) : string :=
  let scriptPath := ppath_join [cwd project; npath_toPortablePath scriptInput] in
  replace (replace binTmpl "@@PNP_PATH@@" (getPnpPath project))
    "@@SCRIPT_PATH@@" scriptPath.

(** [InstallBinCommand.execute]; [workspace] is the [bin] map of the
    workspace at the working directory, if there is one; [0o755] is 493. *)
Definition installBin (workspace : option (JsMap string)) (binDir : string)
    (d : BinDir) : BinDir :=
  match workspace with
  | Some bin =>
      foldl (λ d entry,
          let binPath := binPathOf binDir entry.1 in
          chmodSync binPath 493%N (writeFileSync binPath (binScript entry.2) d))
        d bin
  | None => d
  end.

End InstallBinCommand.

(** An example for the commands: a project whose Yarn release is in
    [tools/]. *)
#[local] Instance exampleCommandApi : CommandApi := {|
  getPnpPath project := cwd project +:+ "/.pnp.js";
  npath_toPortablePath path := path;
  replace text pattern replacement := text +:+ "|" +:+ pattern +:+ "=" +:+ replacement;
  JSON_stringify s := dquote +:+ s +:+ dquote;
  trim s := s
|}.

Definition commandConfiguration (linker yarnPath : string) : Configuration :=
  {| yarnPath := yarnPath;
     cacheFolder := "/proj/.yarn/cache";
     sources := ["<environment>"; "/proj/.yarnrc.yml"; "/home/dev/.yarnrc.yml"];
     nixExprPath := "/proj/yarn-project.nix";
     lockfileFilename := "yarn.lock";
     isolatedNixBuilds := [];
     nodeLinker := linker;
     pnpUnpluggedFolder := "/proj/.yarn/unplugged";
     generateDefaultNix := true;
     enableNixPreload := false |}.

Definition commandProject (linker yarnPath : string) : Project :=
  {| configuration := commandConfiguration linker yarnPath;
     cwd := "/proj";
     storedPackages := [];
     storedResolutions := ∅;
     storedChecksums := ∅;
     storedBuildState := [];
     manifestName := Some (mkIdent None "app") |}.

Definition commandEnv : CommandEnv :=
  {| readdirSync _ := ["plugin-nixify.cjs"];
     execNixHash _ := Return "0aaaabbbbccccdddd" |}.

Definition hashlessEnv : CommandEnv :=
  {| readdirSync _ := ["plugin-nixify.cjs"];
     execNixHash _ := Throw "spawn nix-hash ENOENT" |}.

(** An installed project that has a flake and a plugin. *)
Definition installedWorld : World :=
  {| fs := {[ "/proj/yarn.lock" := "lock"; "/proj/.pnp.js" := "pnp";
              "/proj/flake.nix" := "{ }"; "/proj/.yarn/plugins" := "" ]};
     reports := []; effects := [] |}.

Definition emptyBinDir : BinDir := {| binFiles := ∅; binModes := ∅ |}.

(** The warnings of the sanity checks of the generator. *)
Section SanityWarnings.
Context `{YarnApi} (project : Project).

Definition outside (path : string) : bool :=
  String.prefix "../" (ppath_relative (cwd project) path).

Definition sanityWarnings : list Report :=
  (if outside (yarnPath (configuration project))
   then [ReportWarning (outsideProject "Yarn path" (yarnPath (configuration project)))]
   else [])
  ++ (if outside (cacheFolder (configuration project))
      then [ReportWarning
              (outsideProject "cache folder" (cacheFolder (configuration project)))]
      else [])
  ++ ((λ source, ReportWarning (outsideProject "config file" source))
        <$> filter (λ source, negb (String.prefix "<" source) && outside source = true)
              (sources (configuration project))).

End SanityWarnings.

(** * Properties *)

(** ** Containers *)

Lemma elem_of_set_add `{EqDecision A} (s : list A) (x y : A) :
  y ∈ set_add s x ↔ y ∈ s ∨ y = x.
Proof.
  unfold set_add. destruct (decide (x ∈ s)) as [Hin|Hin].
  - split; [auto|]. intros [?| ->]; done.
  - rewrite elem_of_app, list_elem_of_singleton. done.
Qed.

Lemma NoDup_set_add `{EqDecision A} (s : list A) (x : A) :
  NoDup s → NoDup (set_add s x).
Proof.
  intros Hs. unfold set_add. destruct (decide (x ∈ s)) as [Hin|Hin]; [done|].
  apply NoDup_app. split_and!; [done| |apply NoDup_singleton].
  intros y Hy ->%list_elem_of_singleton. done.
Qed.

Example lastSegment_of_checksum : lastSegment "8/0f3a/9bc1" = "9bc1".
Proof. reflexivity. Qed.

Example sort_by_code_units :
  sort ["b"; "a@npm:2"; "a"; "B"; "a@npm:10"] = ["B"; "a"; "a@npm:10"; "a@npm:2"; "b"].
Proof. vm_compute. reflexivity. Qed.

Example set_add_keeps_insertion_order :
  foldl set_add [] ["b"; "a"; "b"; "c"; "a"] = ["b"; "a"; "c"].
Proof. vm_compute. reflexivity. Qed.

Example map_set_keeps_position :
  map_set [("k1", 1); ("k2", 2)] "k1" 3 = [("k1", 3); ("k2", 2)].
Proof. reflexivity. Qed.

Lemma result_bind_Return {A B} (f : A → result B) (r : result A) (b : B) :
  (r ≫= f) = Return b → ∃ a, r = Return a ∧ f a = Return b.
Proof. destruct r; simpl; [eauto|done..]. Qed.

Lemma result_bind_fails {A} (f : A → result A) (r r' : result A) :
  (∀ x, r' ≠ Return x) →
  (r ≫= f) = r' →
  r = r' ∨ ∃ a, r = Return a ∧ f a = r'.
Proof. intros _ <-. destruct r; simpl; eauto. Qed.

(** Two hypotheses that contradict each other. *)
Ltac clash := solve [congruence | simplify_eq; done | simplify_eq; congruence].

(** ** The closure walker *)

Section WalkerFacts.
Context `{YarnApi} (project : Project) (cacheEntries : JsMap CacheEntry).

Local Abbreviation collected := (collected project cacheEntries).
Local Abbreviation reachable := (reachable project).
Local Abbreviation edge := (edge project).
Local Abbreviation dangling := (dangling project).

Lemma collected_mono pkg out out' s : collected pkg out out' → s ∈ out → s ∈ out'.
Proof. intros (Hiff & _) Hs. apply Hiff. by left. Qed.

(** The loop over the dependencies, given what the recursive call does. *)
Lemma visitDependencies_Return collect ds out out' :
  (∀ q o o', collect q o = Return o' → collected q o o') →
  forEach (visitDependency project collect) ds out = Return out' →
  (∀ s, s ∈ out' ↔
        s ∈ out ∨ ∃ d h q0 q, d ∈ ds
          ∧ storedResolutions project !! descriptorHash d = Some h
          ∧ map_get (storedPackages project) h = Some q0
          ∧ reachable q0 q ∧ stringifyLocator q = s
          ∧ map_has cacheEntries s = true)
  ∧ (∀ d, d ∈ ds → ∃ h q0,
        storedResolutions project !! descriptorHash d = Some h
        ∧ map_get (storedPackages project) h = Some q0
        ∧ ∀ q, reachable q0 q → ¬ dangling q)
  ∧ (NoDup out → NoDup out').
Proof.
  intros Hcollect. revert out. induction ds as [|d ds IH]; intros out Hrun.
  - simpl in Hrun. injection Hrun as <-. split_and!; [|by intros ? ?%elem_of_nil|done].
    intros s. split; [auto|]. intros [?|(d & ? & ? & ? & ?%elem_of_nil & _)]; done.
  - simpl in Hrun. apply result_bind_Return in Hrun as (out1 & Hd & Hrest).
    unfold visitDependency in Hd.
    destruct (storedResolutions project !! descriptorHash d) as [h|] eqn:Hres; [|done].
    destruct (map_get (storedPackages project) h) as [q0|] eqn:Hget; [|done].
    apply Hcollect in Hd as (Hiff1 & Hdang1 & Hnd1).
    apply IH in Hrest as (Hiff & Hdang & Hnd).
    split_and!.
    + intros s. rewrite Hiff, Hiff1. split.
      * intros [[?|(q & ? & ? & ?)]|(d' & h' & q0' & q & ? & ? & ? & ? & ? & ?)].
        -- by left.
        -- right. exists d, h, q0, q. rewrite elem_of_cons. naive_solver.
        -- right. exists d', h', q0', q. rewrite elem_of_cons. naive_solver.
      * intros [?|(d' & h' & q0' & q & [->|?]%elem_of_cons & ? & ? & ? & ? & ?)].
        -- by left; left.
        -- left; right. exists q. naive_solver.
        -- right. naive_solver.
    + intros d' [->|?]%elem_of_cons; [naive_solver|by apply Hdang].
    + auto.
Qed.

(** One activation, given what the recursive call does. *)
Lemma collectBody_Return collect pkg out out' :
  (∀ q o o', collect q o = Return o' → collected q o o') →
  collectBody project cacheEntries collect pkg out = Return out' →
  collected pkg out out'.
Proof.
  intros Hcollect Hrun. unfold collectBody in Hrun.
  apply result_bind_Return in Hrun as (out2 & Hvirt & Hrun).
  apply result_bind_Return in Hrun as (out3 & Hpatch & Hdeps).
  apply (visitDependencies_Return _ _ _ _ Hcollect) in Hdeps as (Hiff4 & Hdang4 & Hnd4).
  set (out1 := if map_has cacheEntries (stringifyLocator pkg)
               then set_add out (stringifyLocator pkg) else out) in *.
  assert (Hiff1 : ∀ s, s ∈ out1 ↔
            s ∈ out ∨ (stringifyLocator pkg = s ∧ map_has cacheEntries s = true)).
  { intros s. subst out1.
    destruct (map_has cacheEntries (stringifyLocator pkg)) eqn:Hhas.
    - rewrite elem_of_set_add. split.
      + intros [?| ->]; [by left|by right].
      + intros [?|[<- _]]; [by left|by right].
    - split; [by left|]. intros [?|[<- ?]]; [done|congruence]. }
  assert (Hnd1 : NoDup out → NoDup out1).
  { subst out1. destruct (map_has _ _); auto using NoDup_set_add. }
  assert (Hvirt' :
    (isVirtualLocator pkg = false ∧ out2 = out1)
    ∨ (isVirtualLocator pkg = true ∧ ∃ q0,
         map_get (storedPackages project) (devirtualizeLocator pkg) = Some q0
         ∧ collected q0 out1 out2)).
  { destruct (isVirtualLocator pkg); [right|left; by injection Hvirt].
    destruct (map_get _ (devirtualizeLocator pkg)) as [q0|]; [|done]. eauto. }
  assert (Hpatch' :
    (String.prefix "patch:" (reference pkg) = false ∧ out3 = out2)
    ∨ (String.prefix "patch:" (reference pkg) = true ∧ ∃ q0,
         map_get (storedPackages project) (parseLocator pkg) = Some q0
         ∧ collected q0 out2 out3)).
  { destruct (String.prefix _ _); [right|left; by injection Hpatch].
    destruct (map_get _ (parseLocator pkg)) as [q0|]; [|done]. eauto. }
  clear Hvirt Hpatch.
  assert (H12 : ∀ s, s ∈ out1 → s ∈ out2).
  { destruct Hvirt' as [[_ ->]|(_ & q0 & _ & Hc)]; eauto using collected_mono. }
  assert (H23 : ∀ s, s ∈ out2 → s ∈ out3).
  { destruct Hpatch' as [[_ ->]|(_ & q0 & _ & Hc)]; eauto using collected_mono. }
  split_and!.
  - intros s. split.
    + intros Hs. apply Hiff4 in Hs as [Hs|(d & h & q0 & q & ? & ? & ? & ? & ? & ?)].
      2:{ right. exists q. split_and!; [|done..].
          eapply rtc_l; [|done]. by eapply edge_dependency. }
      assert (s ∈ out2 ∨ ∃ q, reachable pkg q ∧ stringifyLocator q = s
                ∧ map_has cacheEntries s = true) as Hs2.
      { destruct Hpatch' as [[_ ->]|(? & q0 & ? & Hc)]; [by left|].
        apply Hc in Hs as [?|(q & ? & ? & ?)]; [by left|right].
        exists q. split_and!; [|done..]. eapply rtc_l; [|done]. by eapply edge_depatch. }
      destruct Hs2 as [Hs2|?]; [|by right].
      assert (s ∈ out1 ∨ ∃ q, reachable pkg q ∧ stringifyLocator q = s
                ∧ map_has cacheEntries s = true) as Hs1.
      { destruct Hvirt' as [[_ ->]|(? & q0 & ? & Hc)]; [by left|].
        apply Hc in Hs2 as [?|(q & ? & ? & ?)]; [by left|right].
        exists q. split_and!; [|done..]. eapply rtc_l; [|done]. by eapply edge_devirt. }
      destruct Hs1 as [Hs1|?]; [|by right].
      apply Hiff1 in Hs1 as [?|[? ?]]; [by left|right].
      exists pkg. split_and!; [apply rtc_refl|done..].
    + intros [Hs|(q & Hreach & Hstr & Hhas)].
      { apply Hiff4. left. apply H23, H12, Hiff1. by left. }
      apply rtc_inv in Hreach as [->|(q0 & Hedge & Hreach)].
      { apply Hiff4. left. apply H23, H12, Hiff1. by right. }
      inversion Hedge as [p q' Hv Hget|p q' Hp Hget|p d h q' Hd Hres Hget]; subst.
      * apply Hiff4. left. apply H23.
        destruct Hvirt' as [[? _]|(_ & q1 & Hget1 & Hc)]; [clash|].
        apply Hc. right. exists q. simplify_eq. done.
      * apply Hiff4. left.
        destruct Hpatch' as [[? _]|(_ & q1 & Hget1 & Hc)]; [clash|].
        apply Hc. right. exists q. simplify_eq. done.
      * apply Hiff4. right. by exists d, h, q0, q.
  - intros q Hreach Hdang.
    apply rtc_inv in Hreach as [->|(q0 & Hedge & Hreach)].
    + inversion Hdang as [p Hv Hget|p Hp Hget|p d Hd Hres|p d h Hd Hres Hget]; subst.
      * destruct Hvirt' as [[? _]|(_ & q1 & Hget1 & _)]; clash.
      * destruct Hpatch' as [[? _]|(_ & q1 & Hget1 & _)]; clash.
      * apply Hdang4 in Hd as (h & q0 & ? & _). clash.
      * apply Hdang4 in Hd as (h' & q0 & ? & ? & _). clash.
    + inversion Hedge as [p q' Hv Hget|p q' Hp Hget|p d h q' Hd Hres Hget]; subst.
      * destruct Hvirt' as [[? _]|(_ & q1 & Hget1 & Hc)]; [clash|].
        destruct Hc as (_ & Hnd & _). simplify_eq. by apply (Hnd q).
      * destruct Hpatch' as [[? _]|(_ & q1 & Hget1 & Hc)]; [clash|].
        destruct Hc as (_ & Hnd & _). simplify_eq. by apply (Hnd q).
      * apply Hdang4 in Hd as (h' & q1 & ? & ? & Hnd).
        simplify_eq. by apply (Hnd q).
  - intros Hnd. apply Hnd4.
    destruct Hpatch' as [[_ ->]|(_ & q0 & _ & Hc)];
      destruct Hvirt' as [[_ ->]|(_ & q1 & _ & Hc')]; auto.
    + apply Hc'; auto.
    + apply Hc; auto.
    + apply Hc, Hc'; auto.
Qed.

Lemma collectTree_Return depth pkg out out' :
  collectTree project cacheEntries depth pkg out = Return out' →
  collected pkg out out'.
Proof.
  revert pkg out out'. induction depth as [|depth IH]; intros pkg out out' Hrun.
  - done.
  - simpl in Hrun. by eapply collectBody_Return.
Qed.



(** A call that does not return fails in its own activation, at a
    dangling edge, or in a recursive call along an edge. *)
Lemma visitDependencies_fails collect ds out r :
  (∀ x, r ≠ Return x) →
  forEach (visitDependency project collect) ds out = r →
  (∃ d, d ∈ ds ∧ storedResolutions project !! descriptorHash d = None
        ∧ r = Throw assertDescriptor)
  ∨ (∃ d h, d ∈ ds ∧ storedResolutions project !! descriptorHash d = Some h
        ∧ map_get (storedPackages project) h = None ∧ r = Throw assertLocator)
  ∨ (∃ d h q o, d ∈ ds ∧ storedResolutions project !! descriptorHash d = Some h
        ∧ map_get (storedPackages project) h = Some q ∧ collect q o = r).
Proof.
  intros Hr. revert out. induction ds as [|d ds IH]; intros out Hrun.
  - by destruct (Hr out).
  - simpl in Hrun. apply result_bind_fails in Hrun as [Hd|(out1 & _ & Hrest)]; [| |done].
    + unfold visitDependency in Hd.
      destruct (storedResolutions project !! descriptorHash d) as [h|] eqn:Hres.
      * destruct (map_get (storedPackages project) h) as [q|] eqn:Hget.
        -- right; right. exists d, h, q, out. by rewrite elem_of_cons; auto.
        -- right; left. exists d, h. by rewrite elem_of_cons; auto.
      * left. exists d. by rewrite elem_of_cons; auto.
    + apply IH in Hrest as [(d' & ? & ?)|[(d' & h & ? & ?)|(d' & h & q & o & ? & ?)]].
      * left. exists d'. by rewrite elem_of_cons; auto.
      * right; left. exists d', h. by rewrite elem_of_cons; auto.
      * right; right. exists d', h, q, o. by rewrite elem_of_cons; auto.
Qed.

Lemma collectBody_fails collect pkg out r :
  (∀ x, r ≠ Return x) →
  collectBody project cacheEntries collect pkg out = r →
  (dangling pkg ∧ ∃ msg, r = Throw msg ∧ isAssertion msg)
  ∨ (∃ q o, edge pkg q ∧ collect q o = r).
Proof.
  intros Hr Hrun. unfold collectBody in Hrun.
  apply result_bind_fails in Hrun as [Hvirt|(out2 & _ & Hrun)]; [| |done].
  { destruct (isVirtualLocator pkg) eqn:Hv;
      [|by symmetry in Hvirt; apply Hr in Hvirt].
    destruct (map_get _ (devirtualizeLocator pkg)) as [q|] eqn:Hget.
    - right. exists q. eexists. split; [by eapply edge_devirt|done].
    - left. split; [by eapply dangling_devirt|]. eexists. split; [done|by left]. }
  apply result_bind_fails in Hrun as [Hpatch|(out3 & _ & Hdeps)]; [| |done].
  { destruct (String.prefix "patch:" (reference pkg)) eqn:Hp;
      [|by symmetry in Hpatch; apply Hr in Hpatch].
    destruct (map_get _ (parseLocator pkg)) as [q|] eqn:Hget.
    - right. exists q. eexists. split; [by eapply edge_depatch|done].
    - left. split; [by eapply dangling_depatch|]. eexists. split; [done|by left]. }
  apply visitDependencies_fails in Hdeps
    as [(d & ? & ? & ?)|[(d & h & ? & ? & ? & ?)|(d & h & q & o & ? & ? & ? & ?)]];
    [| | |done].
  - left. split; [by eapply dangling_descriptor|]. eexists. split; [done|by right].
  - left. split; [by eapply dangling_resolution|]. eexists. split; [done|by left].
  - right. exists q, o. split; [by eapply edge_dependency|done].
Qed.

(** Every error the walker throws is one of its assertions, thrown at
    a dangling edge of a package it reached. *)
Lemma collectTree_fails depth pkg out r :
  (∀ x, r ≠ Return x) →
  collectTree project cacheEntries depth pkg out = r →
  r = StackOverflow
  ∨ (∃ msg, r = Throw msg ∧ isAssertion msg ∧ ∃ p, reachable pkg p ∧ dangling p).
Proof.
  intros Hr. revert pkg out.
  induction depth as [|depth IH]; intros pkg out Hrun; [by left|].
  simpl in Hrun.
  apply collectBody_fails in Hrun as [(Hdang & msg & ? & ?)|(q & o & Hedge & Hrec)]; [| |done].
  - right. exists msg. split_and!; [done..|]. exists pkg. split; [apply rtc_refl|done].
  - apply IH in Hrec as [?|(msg & ? & ? & p & ? & ?)]; [by left|right].
    exists msg. split_and!; [done..|]. exists p. split; [by eapply rtc_l|done].
Qed.

(** With edges that decrease a rank, a stack deeper than the rank is
    never exhausted. *)
Lemma collectTree_ranked (rank : Package → nat) root :
  (∀ p q, reachable root p → edge p q → rank q < rank p) →
  ∀ depth pkg out,
    reachable root pkg → rank pkg < depth →
    collectTree project cacheEntries depth pkg out ≠ StackOverflow.
Proof.
  intros Hrank. induction depth as [|depth IH]; intros pkg out Hreach Hlt; [lia|].
  simpl. intros Hrun.
  apply collectBody_fails in Hrun as [(_ & msg & ? & _)|(q & o & Hedge & Hrec)]; [done| |done].
  apply (IH q o); [by eapply rtc_r|specialize (Hrank _ _ Hreach Hedge); lia|done].
Qed.




Lemma map_get_values {V} (m : JsMap V) k v : map_get m k = Some v → v ∈ map_values m.
Proof.
  unfold map_values. induction m as [|[k' v'] m IH]; simpl; [done|].
  destruct (String.eqb k' k); intros Hget.
  - injection Hget as ->. apply elem_of_cons. by left.
  - apply elem_of_cons. right. by apply IH.
Qed.

Lemma edge_successors p q : edge p q ↔ q ∈ successors project p.
Proof.
  unfold successors. rewrite !elem_of_app, list_elem_of_omap. split.
  - intros [p' q' Hv Hget|p' q' Hp Hget|p' d h q' Hd Hres Hget].
    + left. rewrite Hv, Hget. simpl. by apply list_elem_of_singleton.
    + right; left. rewrite Hp, Hget. simpl. by apply list_elem_of_singleton.
    + right; right. exists d. split; [done|]. by rewrite Hres.
  - intros [Hq|[Hq|(d & Hd & Hq)]].
    + destruct (isVirtualLocator p) eqn:Hv; [|by apply elem_of_nil in Hq].
      destruct (map_get _ (devirtualizeLocator p)) as [q0|] eqn:Hget;
        [|by apply elem_of_nil in Hq].
      apply list_elem_of_singleton in Hq as ->. by eapply edge_devirt.
    + destruct (String.prefix "patch:" (reference p)) eqn:Hp; [|by apply elem_of_nil in Hq].
      destruct (map_get _ (parseLocator p)) as [q0|] eqn:Hget;
        [|by apply elem_of_nil in Hq].
      apply list_elem_of_singleton in Hq as ->. by eapply edge_depatch.
    + destruct (storedResolutions project !! descriptorHash d) as [h|] eqn:Hres; [|done].
      by eapply edge_dependency.
Qed.

Lemma reachable_stored root p :
  reachable root p → p ∈ root :: map_values (storedPackages project).
Proof.
  intros Hreach. apply rtc_inv_r in Hreach as [->|(p' & _ & Hedge)].
  - apply elem_of_cons. by left.
  - apply elem_of_cons. right.
    destruct Hedge; by eapply map_get_values.
Qed.

(** A rank checked on the stored packages bounds every path. *)
Lemma ranked_stored (rank : Package → nat) root :
  Forall (λ p, Forall (λ q, rank q < rank p) (successors project p))
    (root :: map_values (storedPackages project)) →
  ∀ p q, reachable root p → edge p q → rank q < rank p.
Proof.
  intros Hall p q Hreach Hedge.
  apply reachable_stored in Hreach.
  rewrite Forall_forall in Hall. specialize (Hall p Hreach).
  rewrite Forall_forall in Hall. by apply Hall, edge_successors.
Qed.

End WalkerFacts.

Lemma elem_of_foldl_set_add `{EqDecision A} (l s : list A) (x : A) :
  x ∈ foldl set_add s l ↔ x ∈ s ∨ x ∈ l.
Proof.
  revert s. induction l as [|y l IH]; intros s; simpl.
  - rewrite elem_of_nil. tauto.
  - rewrite IH, elem_of_set_add, elem_of_cons. naive_solver.
Qed.


(** ** The isolated-build loop *)

Section PlannerFacts.
Context `{YarnApi} (project : Project) (cacheEntries : JsMap CacheEntry) (depth : nat).

Local Abbreviation planOccurrence := (planOccurrence project cacheEntries depth).
Local Abbreviation occurrenceOf := (occurrenceOf project).
Local Abbreviation occurrencesOf := (occurrencesOf project).
Local Abbreviation injectionOf := (injectionOf project).
Local Abbreviation isolatedBuildOf := (isolatedBuildOf project cacheEntries depth).

(** One round of the loop that returns. *)
Lemma planOccurrence_Return st k st' :
  planOccurrence st k = Return st' →
  ∃ o, occurrenceOf k = Some o ∧
    match o with
    | None => st' = st
    | Some occ =>
        nodeLinker (configuration project) = "pnp"
        ∧ isolatedPackages st' = set_add (isolatedPackages st) (occDevirt occ)
        ∧ isolatedIntegration st'
            = withHeader (isolatedIntegration st) ++ injectionOf occ
        ∧ (if bool_decide (occDevirt occ ∈ isolatedPackages st)
           then isolatedCode st' = isolatedCode st
           else ∃ closure,
             collectTree project cacheEntries depth (occPkg occ) [] = Return closure
             ∧ isolatedCode st' = isolatedCode st
                 ++ [isolatedBuildCode (occPkg occ) (occDevirt occ) closure])
    end.
Proof.
  unfold planOccurrence, occurrenceOf.
  intros Hrun.
  destruct (map_get (storedPackages project) k) as [pkg|]; [simpl|done].
  destruct (bool_decide (name pkg ∈ isolatedNixBuilds (configuration project)));
    simpl in *; [|injection Hrun as <-; by exists None].
  destruct (String.eqb (nodeLinker (configuration project)) "pnp") eqn:Hpnp;
    simpl in Hrun; [|done].
  apply String.eqb_eq in Hpnp.
  apply result_bind_Return in Hrun as (devirtPkg & Hdevirt & Hrest).
  exists (Some (mkOccurrence pkg devirtPkg)). split.
  { destruct (isVirtualLocator pkg); simpl in *; [|by simplify_eq].
    destruct (map_get _ (devirtualizeLocator pkg)) as [d|]; by simplify_eq. }
  simpl. unfold set_add.
  destruct (decide (devirtPkg ∈ isolatedPackages st)) as [Hin|Hin].
  - rewrite bool_decide_true in * by done. simpl in Hrest. injection Hrest as <-.
    by split_and!.
  - rewrite bool_decide_false in * by done.
    apply result_bind_Return in Hrest as (st1 & Hst1 & Hst').
    apply result_bind_Return in Hst1 as (closure & Hclosure & Hst1).
    injection Hst1 as <-. injection Hst' as <-. simpl.
    split_and!; [done..|]. by exists closure.
Qed.

Lemma isolatedBuildOf_mono occs occs' d code :
  occs ⊆ occs' → isolatedBuildOf occs d code → isolatedBuildOf occs' d code.
Proof. intros Hsub (occ & closure & ? & ?). exists occ, closure. split; [by apply Hsub|done]. Qed.

(** The loop, from any state. *)
Lemma planLoop_Return keys st0 st pre :
  forEach planOccurrence keys st0 = Return st →
  Forall2 (isolatedBuildOf pre) (isolatedPackages st0) (isolatedCode st0) →
  ∃ occs, occurrencesOf keys = Some occs
    ∧ (occs ≠ [] → nodeLinker (configuration project) = "pnp")
    ∧ isolatedPackages st = foldl set_add (isolatedPackages st0) (occDevirt <$> occs)
    ∧ isolatedIntegration st
        = foldl (λ acc occ, withHeader acc ++ injectionOf occ)
            (isolatedIntegration st0) occs
    ∧ Forall2 (isolatedBuildOf (pre ++ occs)) (isolatedPackages st) (isolatedCode st).
Proof.
  revert st0 pre. induction keys as [|k keys IH]; intros st0 pre Hrun Hcode.
  - injection Hrun as <-. exists []. rewrite app_nil_r. by split_and!.
  - simpl in Hrun. apply result_bind_Return in Hrun as (st1 & Hstep & Hrest).
    apply planOccurrence_Return in Hstep as (o & Ho & Hstep).
    destruct o as [occ|].
    + destruct Hstep as (Hpnp & Hpkgs & Hint & Hcodes).
      apply (IH _ (pre ++ [occ])) in Hrest as (occs & Hoccs & _ & Hp & Hi & Hc).
      * exists (occ :: occs). simpl. rewrite Ho, Hoccs. simpl.
        split_and!; [done|done|by rewrite Hp, Hpkgs|by rewrite Hi, Hint|].
        by rewrite <-(assoc_L (++)) in Hc.
      * rewrite Hpkgs. unfold set_add.
        destruct (decide (occDevirt occ ∈ isolatedPackages st0)) as [Hin|Hin].
        -- rewrite bool_decide_true in Hcodes by done. rewrite Hcodes.
           eapply Forall2_impl; [done|]. intros d code.
           apply isolatedBuildOf_mono. set_solver.
        -- rewrite bool_decide_false in Hcodes by done.
           destruct Hcodes as (closure & Hclosure & ->).
           apply Forall2_app.
           ++ eapply Forall2_impl; [done|]. intros d code.
              apply isolatedBuildOf_mono. set_solver.
           ++ constructor; [|constructor]. exists occ, closure.
              split_and!; [set_solver|done..].
    + subst st1. apply (IH _ pre) in Hrest as (occs & Hoccs & ? & ? & ? & ?); [|done].
      exists occs. simpl. rewrite Ho, Hoccs. by split_and!.
Qed.

Lemma integration_foldl_nonempty occs acc :
  acc ≠ [] →
  foldl (λ acc occ, withHeader acc ++ injectionOf occ) acc occs
    = acc ++ concat (injectionOf <$> occs).
Proof.
  revert acc. induction occs as [|occ occs IH]; intros acc Hacc; simpl.
  - by rewrite app_nil_r.
  - rewrite IH.
    + unfold withHeader. destruct acc; [done|]. simpl. by rewrite <-(assoc_L (++)).
    + unfold withHeader. by destruct acc.
Qed.

Lemma integration_foldl occs :
  foldl (λ acc occ, withHeader acc ++ injectionOf occ) [] occs
    = match occs with
      | [] => []
      | _ => ["# Copy in isolated builds."] ++ concat (injectionOf <$> occs)
      end.
Proof.
  destruct occs as [|occ occs]; [done|]. simpl.
  rewrite integration_foldl_nonempty by done. done.
Qed.

(** The whole plan of a run that returns. *)
Lemma planIsolation_Return st :
  planIsolation project cacheEntries depth = Return st →
  ∃ occs, occurrencesOf (map_keys (storedBuildState project)) = Some occs
    ∧ (occs ≠ [] → nodeLinker (configuration project) = "pnp")
    ∧ isolatedPackages st = foldl set_add [] (occDevirt <$> occs)
    ∧ isolatedIntegration st = integrationOf project occs
    ∧ Forall2 (isolatedBuildOf occs) (isolatedPackages st) (isolatedCode st).
Proof.
  unfold planIsolation. intros Hrun.
  apply result_bind_Return in Hrun as (st1 & Hloop & Hst).
  apply (planLoop_Return _ _ _ []) in Hloop as (occs & Hoccs & Hpnp & Hp & Hi & Hc);
    [|by apply Forall2_nil].
  exists occs. rewrite integration_foldl in Hi.
  destruct occs as [|occ occs]; rewrite Hi in Hst; simpl in Hst; injection Hst as <-.
  - by split_and!.
  - simpl. by split_and!.
Qed.


Lemma occurrencesOf_no_match keys occs :
  (∀ k pkg, k ∈ keys → map_get (storedPackages project) k = Some pkg →
            name pkg ∉ isolatedNixBuilds (configuration project)) →
  occurrencesOf keys = Some occs → occs = [].
Proof.
  revert occs. induction keys as [|k keys IH]; intros occs Hno Hoccs.
  - by injection Hoccs.
  - simpl in Hoccs.
    destruct (occurrenceOf k) as [o|] eqn:Ho; [|done]. simpl in Hoccs.
    destruct (occurrencesOf keys) as [occs'|] eqn:Hoccs'; [|done].
    assert (occs' = []) as ->.
    { apply IH; [|done]. intros k' pkg Hk'. apply Hno, elem_of_cons. by right. }
    unfold occurrenceOf in Ho.
    destruct (map_get (storedPackages project) k) as [pkg|] eqn:Hget; [|done].
    simpl in Ho. rewrite bool_decide_false in Ho.
    + injection Ho as <-. by injection Hoccs.
    + eapply Hno; [|done]. apply elem_of_cons. by left.
Qed.



End PlannerFacts.

(** ** Claims about the closure walker *)

Section CycleExample.

Lemma cycle_from_A collect out :
  collectBody (H:=exampleApi) cycleProject cycleEntries collect pkgA out
    = collect pkgB (set_add out "a@npm:1.0.0") ≫= Return.
Proof. reflexivity. Qed.

Lemma cycle_from_B collect out :
  collectBody (H:=exampleApi) cycleProject cycleEntries collect pkgB out
    = collect pkgA (set_add out "b@npm:1.0.0") ≫= Return.
Proof. reflexivity. Qed.

Lemma cycle_overflows depth :
  ∀ out,
    collectTree (H:=exampleApi) cycleProject cycleEntries depth pkgA out = StackOverflow
    ∧ collectTree (H:=exampleApi) cycleProject cycleEntries depth pkgB out = StackOverflow.
Proof.
  induction depth as [|depth IH]; intros out; [done|].
  simpl. rewrite cycle_from_A, cycle_from_B.
  by rewrite (proj2 (IH _)), (proj1 (IH _)).
Qed.

End CycleExample.

(** C1, as stated, fails on the cycle of [a] and [b]: whatever the
    depth of the call stack, the walker started at [a] does not return
    the set of the two keys; the recursion ends in an exhausted stack. *)
Lemma collectTree_cycle_never_returns :
  ¬ ∃ depth out,
      collectTree (H:=exampleApi) cycleProject cycleEntries depth pkgA [] = Return out.
Proof.
  intros (depth & out & Hrun).
  by rewrite (proj1 (cycle_overflows depth [])) in Hrun.
Qed.

(** C1, amended.  When the edges reachable from the root decrease a
    rank (no cycle; sharing is allowed) and the stack is deeper than the
    rank of the root, [collectTree] does not exhaust the stack; if,
    moreover, no reachable package has a dangling edge, it returns a
    duplicate-free set holding exactly the cache-entry keys of the
    packages reachable from the root.  Adding a key that is already in
    the set leaves the set as it is. *)
Theorem collectTree_acyclic_returns `{YarnApi} (project : Project)
    (cacheEntries : JsMap CacheEntry) (rank : Package → nat) (root : Package)
    (depth : nat) :
  (∀ p q, reachable project root p → edge project p q → rank q < rank p) →
  rank root < depth →
  collectTree project cacheEntries depth root [] ≠ StackOverflow
  ∧ ((∀ p, reachable project root p → ¬ dangling project p) →
     ∃ out,
       collectTree project cacheEntries depth root [] = Return out
       ∧ NoDup out
       ∧ ∀ s, s ∈ out ↔
              ∃ q, reachable project root q ∧ stringifyLocator q = s
                   ∧ map_has cacheEntries s = true)
  ∧ (∀ (out : list string) s, s ∈ out → set_add out s = out).
Proof.
  intros Hrank Hdepth.
  assert (Hso : collectTree project cacheEntries depth root [] ≠ StackOverflow).
  { eapply collectTree_ranked; [done|apply rtc_refl|done]. }
  split_and!; [done| |].
  - intros Hnd.
    destruct (collectTree project cacheEntries depth root []) as [out|msg|] eqn:Hrun;
      [|exfalso|done].
    + exists out. apply collectTree_Return in Hrun as (Hiff & _ & Hnodup).
      split_and!; [done|apply Hnodup, NoDup_nil_2|].
      intros s. rewrite Hiff, elem_of_nil. naive_solver.
    + apply collectTree_fails in Hrun as [?|(? & _ & _ & p & ? & ?)]; [done| |done].
      by apply (Hnd p).
  - intros out s Hs. unfold set_add. by rewrite decide_True.
Qed.

Lemma nativeProject_walk :
  collectTree (H:=exampleApi) nativeProject nativeEntries 5 pkgV1 []
    = Return ["native-lib@npm:1.0.0"; "dep@npm:2.0.0";
              "left-pad@patch:left-pad@npm:1.3.0#fix.patch"; "left-pad@npm:1.3.0"].
Proof. vm_compute. reflexivity. Qed.

Lemma nativeProject_ranked :
  ∀ p q, reachable (H:=exampleApi) nativeProject pkgV1 p →
         edge (H:=exampleApi) nativeProject p q → exampleRank q < exampleRank p.
Proof.
  apply ranked_stored. apply (bool_decide_unpack _). vm_compute. exact I.
Qed.

Lemma collectTree_acyclic_returns_witness :
  ∃ out,
    collectTree (H:=exampleApi) nativeProject nativeEntries 5 pkgV1 [] = Return out
    ∧ NoDup out
    ∧ ∀ s, s ∈ out ↔
           ∃ q, reachable (H:=exampleApi) nativeProject pkgV1 q
                ∧ stringifyLocator q = s ∧ map_has nativeEntries s = true.
Proof.
  refine (proj1 (proj2 (collectTree_acyclic_returns (H:=exampleApi)
            nativeProject nativeEntries exampleRank pkgV1 5 nativeProject_ranked _)) _).
  - vm_compute. lia.
  - intros p Hp.
    exact (proj1 (proj2 (collectTree_Return _ _ _ _ _ _ nativeProject_walk)) p Hp).
Defined.

(** C4.  A call that returns has collected exactly the cache-entry keys
    of the packages reachable from the root along the three kinds of
    edges; every devirtualization target, patch source and dependency of
    a reachable package is registered, is reachable in turn, and its
    key is in the result when it is a cache-entry key. *)
Theorem collectTree_closure_complete `{YarnApi} (project : Project)
    (cacheEntries : JsMap CacheEntry) (depth : nat) (root : Package)
    (out : list string) :
  collectTree project cacheEntries depth root [] = Return out →
  (∀ s, s ∈ out ↔
        ∃ q, reachable project root q ∧ stringifyLocator q = s
             ∧ map_has cacheEntries s = true)
  ∧ (∀ p, reachable project root p →
       (isVirtualLocator p = true →
        ∃ q, map_get (storedPackages project) (devirtualizeLocator p) = Some q
             ∧ reachable project root q
             ∧ (map_has cacheEntries (stringifyLocator q) = true →
                stringifyLocator q ∈ out))
       ∧ (String.prefix "patch:" (reference p) = true →
          ∃ q, map_get (storedPackages project) (parseLocator p) = Some q
               ∧ reachable project root q
               ∧ (map_has cacheEntries (stringifyLocator q) = true →
                  stringifyLocator q ∈ out))
       ∧ (∀ d, d ∈ dependencies p →
          ∃ h q, storedResolutions project !! descriptorHash d = Some h
                 ∧ map_get (storedPackages project) h = Some q
                 ∧ reachable project root q
                 ∧ (map_has cacheEntries (stringifyLocator q) = true →
                    stringifyLocator q ∈ out))).
Proof.
  intros Hrun. apply collectTree_Return in Hrun as (Hiff & Hnd & _).
  assert (Hkeys : ∀ s, s ∈ out ↔
            ∃ q, reachable project root q ∧ stringifyLocator q = s
                 ∧ map_has cacheEntries s = true).
  { intros s. rewrite Hiff, elem_of_nil. naive_solver. }
  split; [done|]. intros p Hp. specialize (Hnd p Hp). split_and!.
  - intros Hv.
    destruct (map_get (storedPackages project) (devirtualizeLocator p)) as [q|] eqn:Hget.
    + assert (reachable project root q) by (eapply rtc_r; [done|by eapply edge_devirt]).
      exists q. split_and!; [done..|]. intros Hhas. apply Hkeys. by exists q.
    + destruct Hnd. by eapply dangling_devirt.
  - intros Hpatch.
    destruct (map_get (storedPackages project) (parseLocator p)) as [q|] eqn:Hget.
    + assert (reachable project root q) by (eapply rtc_r; [done|by eapply edge_depatch]).
      exists q. split_and!; [done..|]. intros Hhas. apply Hkeys. by exists q.
    + destruct Hnd. by eapply dangling_depatch.
  - intros d Hd.
    destruct (storedResolutions project !! descriptorHash d) as [h|] eqn:Hres.
    + destruct (map_get (storedPackages project) h) as [q|] eqn:Hget.
      * assert (reachable project root q)
          by (eapply rtc_r; [done|by eapply edge_dependency]).
        exists h, q. split_and!; [done..|]. intros Hhas. apply Hkeys. by exists q.
      * destruct Hnd. by eapply dangling_resolution.
    + destruct Hnd. by eapply dangling_descriptor.
Qed.

Lemma collectTree_closure_complete_witness :
  "left-pad@npm:1.3.0"
    ∈ ["native-lib@npm:1.0.0"; "dep@npm:2.0.0";
       "left-pad@patch:left-pad@npm:1.3.0#fix.patch"; "left-pad@npm:1.3.0"]
  ↔ ∃ q, reachable (H:=exampleApi) nativeProject pkgV1 q
         ∧ stringifyLocator q = "left-pad@npm:1.3.0"
         ∧ map_has nativeEntries "left-pad@npm:1.3.0" = true.
Proof.
  exact (proj1 (collectTree_closure_complete (H:=exampleApi)
           nativeProject nativeEntries 5 pkgV1 _ nativeProject_walk)
           "left-pad@npm:1.3.0").
Defined.

Section TangledExample.




End TangledExample.






(** ** Claims about the isolated builds *)





Example nativeProject_two_steps_one_build :
  (st ← planIsolation (H:=exampleApi) nativeProject nativeEntries 5;
   Return (List.length (isolatedCode st), List.length (isolatedIntegration st)))
  = Return (1, 12).
Proof. vm_compute. reflexivity. Qed.

(** ** Claims about the rendered expression *)

Lemma projectExpr_Return `{YarnApi} txt project env depth cacheEntries text :
  projectExpr txt project env depth = Return (cacheEntries, text) →
  buildCacheEntries project env = Return cacheEntries
  ∧ ∃ iso, planIsolation project cacheEntries depth = Return iso
      ∧ text = renderTmpl (projectExprTmpl txt)
                 (templateVars project cacheEntries iso).
Proof.
  unfold projectExpr. intros Hrun.
  apply result_bind_Return in Hrun as (ce & Hce & Hrun).
  apply result_bind_Return in Hrun as (iso & Hiso & Hrun).
  injection Hrun as <- <-. eauto.
Qed.

(** C8.  When no installed package is named by the allow-list, the plan
    of a run that renders is empty: the text is the template with its
    conditional block left out, with the empty string for the isolated
    builds and with the indentation of the empty string for the
    integration snippet.  In general the conditional block is kept
    exactly when there is an occurrence, that is, an injection step. *)
Theorem no_isolation_renders_nothing `{YarnApi} (txt : TemplateText)
    (project : Project) (env : Env) (depth : nat)
    (cacheEntries : JsMap CacheEntry) (text : string) :
  (∀ k pkg, k ∈ map_keys (storedBuildState project) →
            map_get (storedPackages project) k = Some pkg →
            name pkg ∉ isolatedNixBuilds (configuration project)) →
  projectExpr txt project env depth = Return (cacheEntries, text) →
  planIsolation project cacheEntries depth = Return noIsolation
  ∧ text = join ""
      [ txtHeader txt; yarnPathRel project;
        ";" +:+ nl +:+ "  lockfile = ./"; lockfileRel project;
        ";" +:+ nl +:+ "  cacheFolder = "; json (cacheFolderOf project);
        txtCommon txt;
        "";
        txtProjectHead txt; json (projectName project);
        txtConfigure txt; indent "      " "";
        txtPhases txt; cacheEntriesCode cacheEntries;
        nl; "";
        nl +:+ "in optionalOverride overrideAttrs project" +:+ nl ]
  ∧ (∀ entries iso occs body,
       planIsolation project entries depth = Return iso →
       occurrencesOf project (map_keys (storedBuildState project)) = Some occs →
       renderNode (templateVars project entries iso)
         (TIf "NEED_ISOLATED_BUILD_SUPPRORT" body)
       = match occs with [] => "" | _ => body end).
Proof.
  intros Hno Hrun.
  apply projectExpr_Return in Hrun as (_ & iso & Hiso & ->).
  assert (iso = noIsolation) as ->.
  { apply planIsolation_Return in Hiso as (occs & Hoccs & _ & Hp & Hi & Hc).
    apply occurrencesOf_no_match in Hoccs as ->; [|done].
    destruct iso as [pkgs integ code]. simpl in *. subst pkgs integ.
    apply Forall2_nil_inv_l in Hc as ->. done. }
  split_and!; [done|reflexivity|].
  intros entries iso occs body Hplan Hoccs.
  apply planIsolation_Return in Hplan as (occs' & Hoccs' & _ & _ & Hi & _).
  assert (occs' = occs) as -> by congruence.
  simpl. rewrite Hi. by destruct occs.
Qed.

Lemma no_isolation_renders_nothing_witness :
  ∃ cacheEntries text,
    projectExpr (H:=exampleApi) exampleText (exampleProject "/proj" "pnp" [])
      exampleEnv 5 = Return (cacheEntries, text)
    ∧ planIsolation (H:=exampleApi) (exampleProject "/proj" "pnp" []) cacheEntries 5
      = Return noIsolation.
Proof.
  eexists _, _. split.
  - vm_compute. reflexivity.
  - refine (proj1 (no_isolation_renders_nothing (H:=exampleApi) exampleText
              (exampleProject "/proj" "pnp" []) exampleEnv 5 _ _ _ _)).
    + intros k pkg _ _. apply not_elem_of_nil.
    + vm_compute. reflexivity.
Defined.

(** ** Steps of the generator and the file system *)

Section WorldFacts.

Lemma bind_run {A B} (m : M A) (k : A → M B) w :
  (m ≫= k) w = match m w with
               | (Return a, w') => k a w'
               | (Throw msg, w') => (Throw msg, w')
               | (StackOverflow, w') => (StackOverflow, w')
               end.
Proof. reflexivity. Qed.

Lemma keeps_fs_bind {A B} (m : M A) (k : A → M B) :
  keeps_fs m → (∀ a, keeps_fs (k a)) → keeps_fs (m ≫= k).
Proof.
  intros Hm Hk w. rewrite bind_run. specialize (Hm w).
  destruct (m w) as [[a|msg|] w']; simpl in *; [|done..].
  by rewrite Hk.
Qed.

Lemma keeps_fs_ret {A} (a : A) : keeps_fs (mret a : M A).
Proof. done. Qed.
Lemma keeps_fs_raise {A} (r : result A) : keeps_fs (raise r).
Proof. done. Qed.
Lemma keeps_fs_report r : keeps_fs (report r).
Proof. done. Qed.
Lemma keeps_fs_effect e : keeps_fs (effect e).
Proof. done. Qed.
Lemma keeps_fs_existsSync path : keeps_fs (existsSync path).
Proof. done. Qed.
Lemma keeps_fs_when b m : keeps_fs m → keeps_fs (when b m).
Proof. by destruct b. Qed.
Lemma keeps_fs_finally {A} (body : M A) cleanup :
  keeps_fs body → keeps_fs cleanup → keeps_fs (finally body cleanup).
Proof.
  intros Hb Hc w. unfold finally. specialize (Hb w).
  destruct (body w) as [r w']. simpl in *. by rewrite Hc.
Qed.
Lemma keeps_fs_forEachM {A} (body : A → M unit) xs :
  (∀ x, keeps_fs (body x)) → keeps_fs (forEachM body xs).
Proof.
  intros Hbody. induction xs as [|x xs IH]; [done|].
  simpl. apply keeps_fs_bind; [done|]. by intros _.
Qed.

Lemma only_reports_report r : only_reports (report r).
Proof. intros w. by exists [r]. Qed.

Lemma only_reports_ret : only_reports (mret tt).
Proof. intros [f rs e]. exists []. simpl. by rewrite app_nil_r. Qed.

Lemma only_reports_when b m : only_reports m → only_reports (when b m).
Proof. destruct b; [done|]. intros _. apply only_reports_ret. Qed.

Lemma only_reports_bind (m k : M unit) :
  only_reports m → only_reports k → only_reports (m;; k).
Proof.
  intros Hm Hk w. rewrite bind_run. destruct (Hm w) as [rs1 ->].
  destruct (Hk {| fs := fs w; reports := reports w ++ rs1; effects := effects w |})
    as [rs2 ->].
  exists (rs1 ++ rs2). simpl. by rewrite (assoc_L (++)).
Qed.

Lemma only_reports_forEachM {A} (body : A → M unit) xs :
  (∀ x, only_reports (body x)) → only_reports (forEachM body xs).
Proof.
  intros Hbody. induction xs as [|x xs IH]; [apply only_reports_ret|].
  simpl. by apply only_reports_bind.
Qed.

End WorldFacts.

Create HintDb keeps.
#[local] Hint Resolve keeps_fs_ret keeps_fs_raise keeps_fs_report keeps_fs_effect
  keeps_fs_existsSync keeps_fs_when keeps_fs_finally keeps_fs_forEachM : keeps.

Section GeneratorFacts.
Context `{YarnApi} (txt : TemplateText) (project : Project) (env : Env) (depth : nat).

Local Abbreviation nixify := (nixify txt project env depth).
Local Abbreviation projectExpr := (projectExpr txt project env depth).

(** The sanity checks only report. *)
Lemma sanityChecks_run : only_reports (sanityChecks project).
Proof.
  unfold sanityChecks.
  repeat (apply only_reports_bind; [apply only_reports_when, only_reports_report|]).
  apply only_reports_forEachM. intros source.
  apply only_reports_when, only_reports_report.
Qed.

Lemma keeps_fs_mkdir tempDir made path : keeps_fs (mkdir tempDir made path).
Proof.
  unfold mkdir. apply keeps_fs_bind; [done|]. intros [|]; [done|].
  apply keeps_fs_bind; [done|]. by intros [|].
Qed.

Lemma keeps_fs_stageEntries tempDir entries staged :
  keeps_fs (stageEntries env tempDir staged entries).
Proof.
  revert staged. induction entries as [|kv entries IH]; intros staged; [done|].
  simpl. apply keeps_fs_bind; [|done].
  unfold stageEntry. apply keeps_fs_bind; [auto with keeps|]. intros [|]; [done|].
  apply keeps_fs_bind; [apply keeps_fs_mkdir|intros _].
  apply keeps_fs_bind; [done|by intros _].
Qed.

Lemma keeps_fs_preloadBatches rounds toPreload :
  keeps_fs (preloadBatches env rounds toPreload).
Proof.
  revert toPreload. induction rounds as [|rounds IH]; intros toPreload; [done|].
  destruct toPreload as [|dst toPreload]; [done|].
  simpl. apply keeps_fs_bind; [done|intros _].
  destruct (execNixStore env _); [apply IH|done..].
Qed.

Lemma keeps_fs_preload cacheEntries : keeps_fs (preload project env cacheEntries).
Proof.
  unfold preload. apply keeps_fs_bind; [done|intros hasStore].
  apply keeps_fs_when, keeps_fs_finally; [|done].
  apply keeps_fs_bind; [apply keeps_fs_stageEntries|intros staged].
  apply keeps_fs_bind; [apply keeps_fs_preloadBatches|intros outcome].
  destruct outcome; auto with keeps.
Qed.

(** What [writeDefaultExpr] does to the files. *)
Lemma writeDefaultExpr_fs w :
  fs (writeDefaultExpr txt project w).2
  = if generateDefaultNix (configuration project)
       && negb (bool_decide (is_Some (fs w !! defaultExprPath project)))
       && negb (bool_decide (is_Some (fs w !! flakeExprPath project)))
    then <[defaultExprPath project := defaultExprTmpl txt]> (fs w)
    else fs w.
Proof.
  unfold writeDefaultExpr.
  destruct (generateDefaultNix (configuration project)); [|done].
  unfold when, mbind, M_mbind, bind, existsSync, writeFile, report. simpl.
  destruct (bool_decide (is_Some (fs w !! defaultExprPath project)));
    destruct (bool_decide (is_Some (fs w !! flakeExprPath project))); done.
Qed.

(** The files after a run. *)
Lemma nixify_fs w :
  fs (nixify w).2
  = if String.prefix (osTempDir env) (cwd project) then fs w
    else match projectExpr with
         | Return (_, text) =>
             let files := <[nixExprPath (configuration project) := text]> (fs w) in
             if generateDefaultNix (configuration project)
                && negb (bool_decide (is_Some (files !! defaultExprPath project)))
                && negb (bool_decide (is_Some (files !! flakeExprPath project)))
             then <[defaultExprPath project := defaultExprTmpl txt]> files
             else files
         | _ => fs w
         end.
Proof.
  unfold nixify.
  destruct (String.prefix (osTempDir env) (cwd project)); [done|].
  rewrite bind_run. destruct (sanityChecks_run w) as [rs ->].
  rewrite bind_run. unfold raise at 1.
  destruct projectExpr as [[cacheEntries text]|msg|]; [|done..].
  rewrite bind_run. simpl.
  rewrite bind_run.
  set (w2 := {| fs := <[nixExprPath (configuration project):=text]> (fs w);
                reports := reports w ++ rs; effects := effects w |}).
  pose proof (writeDefaultExpr_fs w2) as Hdef.
  destruct (writeDefaultExpr txt project w2) as [[[]|msg|] w3] eqn:Hw3; simpl in *.
  - by rewrite keeps_fs_preload.
  - done.
  - done.
Qed.


(** A run whose expression fails leaves the files and effects alone. *)
Lemma nixify_aborts w :
  String.prefix (osTempDir env) (cwd project) = false →
  (∀ x, projectExpr ≠ Return x) →
  ∃ rs, nixify w
        = (match projectExpr with
           | Throw msg => Throw msg
           | _ => StackOverflow
           end,
           {| fs := fs w; reports := reports w ++ rs; effects := effects w |}).
Proof.
  intros Htemp Hfail. unfold nixify. rewrite Htemp.
  rewrite bind_run. destruct (sanityChecks_run w) as [rs ->]. exists rs.
  rewrite bind_run. unfold raise at 1.
  destruct projectExpr as [x|msg|]; [by destruct (Hfail x)|done..].
Qed.

End GeneratorFacts.

(** ** Claims about the files a run writes *)

(** C10.  In a project below the temporary directory of the system the
    generator reports that it skips the project and returns: no file is
    written, nothing is staged or executed, and no error is raised. *)
Theorem nixify_skips_temporary `{YarnApi} (txt : TemplateText) (project : Project)
    (env : Env) (depth : nat) (w : World) :
  String.prefix (osTempDir env) (cwd project) = true →
  nixify txt project env depth w
  = (Return tt,
     {| fs := fs w;
        reports := reports w ++
          [ReportInfo ("Skipping Nixify, because " +:+ cwd project
                         +:+ " appears to be a temporary directory")];
        effects := effects w |}).
Proof. intros Htemp. unfold nixify. by rewrite Htemp. Qed.

Lemma nixify_skips_temporary_witness :
  nixify (H:=exampleApi) exampleText
    (exampleProject "/tmp/xfs-dlx/project" "pnp" ["native-lib"]) exampleEnv 5 emptyWorld
  = (Return tt,
     {| fs := ∅;
        reports :=
          [ReportInfo "Skipping Nixify, because /tmp/xfs-dlx/project appears to be a temporary directory"];
        effects := [] |}).
Proof.
  exact (nixify_skips_temporary (H:=exampleApi) exampleText
           (exampleProject "/tmp/xfs-dlx/project" "pnp" ["native-lib"])
           exampleEnv 5 emptyWorld eq_refl).
Defined.

(** C9.  A run changes no file but the Nix expression and the wrapper.
    An existing [default.nix] or [flake.nix], other than the configured
    path of the Nix expression, is left as it is; the wrapper appears
    only where [generateDefaultNix] is set and neither of the two files
    existed, and then holds the wrapper template; and whenever the
    expression is rendered it is what the configured path holds after
    the run, whatever was there before. *)
Theorem wrapper_written_once `{YarnApi} (txt : TemplateText) (project : Project)
    (env : Env) (depth : nat) (w : World) :
  let w' := (nixify txt project env depth w).2 in
  (∀ path, path ≠ nixExprPath (configuration project) →
           path ≠ defaultExprPath project → fs w' !! path = fs w !! path)
  ∧ (∀ path, path ∈ [defaultExprPath project; flakeExprPath project] →
             path ≠ nixExprPath (configuration project) →
             is_Some (fs w !! path) → fs w' !! path = fs w !! path)
  ∧ (nixExprPath (configuration project) ≠ defaultExprPath project →
     fs w' !! defaultExprPath project ≠ fs w !! defaultExprPath project →
     generateDefaultNix (configuration project) = true
     ∧ fs w !! defaultExprPath project = None
     ∧ fs w !! flakeExprPath project = None
     ∧ fs w' !! defaultExprPath project = Some (defaultExprTmpl txt))
  ∧ (String.prefix (osTempDir env) (cwd project) = false →
     ∀ cacheEntries text,
       projectExpr txt project env depth = Return (cacheEntries, text) →
       fs w' !! nixExprPath (configuration project) = Some text).
Proof.
  intros w'. subst w'. rewrite nixify_fs.
  set (nix := nixExprPath (configuration project)).
  set (def := defaultExprPath project). set (flake := flakeExprPath project).
  assert (Hwrapper : ∀ files : gmap string string,
    generateDefaultNix (configuration project)
      && negb (bool_decide (is_Some (files !! def)))
      && negb (bool_decide (is_Some (files !! flake))) = true →
    generateDefaultNix (configuration project) = true
    ∧ files !! def = None ∧ files !! flake = None).
  { intros files Hb. apply andb_prop in Hb as [Hb Hf]. apply andb_prop in Hb as [Hg Hd].
    apply negb_true_iff, bool_decide_eq_false in Hd, Hf.
    rewrite <-eq_None_not_Some in Hd, Hf. done. }
  assert (Hexisting : ∀ path, path ∈ [def; flake] → path ≠ nix →
            is_Some (fs w !! path) →
            ∀ files text, files = <[nix := text]> (fs w) →
            (if generateDefaultNix (configuration project)
                && negb (bool_decide (is_Some (files !! def)))
                && negb (bool_decide (is_Some (files !! flake)))
             then <[def := defaultExprTmpl txt]> files else files) !! path
            = fs w !! path).
  { intros path Hpath Hne [c Hc] files text ->.
    destruct (_ && _ && _) eqn:Hb.
    - apply Hwrapper in Hb as (_ & Hd & Hf). exfalso.
      apply elem_of_cons in Hpath as [->|Hpath].
      + rewrite lookup_insert_ne in Hd by done. congruence.
      + apply list_elem_of_singleton in Hpath as ->.
        rewrite lookup_insert_ne in Hf by done. congruence.
    - by rewrite lookup_insert_ne. }
  destruct (String.prefix (osTempDir env) (cwd project)).
  { split_and!; [done|done|done|done]. }
  destruct (projectExpr txt project env depth) as [[cacheEntries text]|msg|];
    [|by split_and!..].
  simpl. split_and!.
  - intros path Hnix Hdef. destruct (_ && _ && _).
    + by rewrite !lookup_insert_ne.
    + by rewrite lookup_insert_ne.
  - intros path Hpath Hne Hsome. by eapply Hexisting.
  - intros Hne Hchanged. destruct (_ && _ && _) eqn:Hb.
    + apply Hwrapper in Hb as (Hg & Hd & Hf).
      rewrite lookup_insert_ne in Hd by done.
      rewrite lookup_insert_eq. split_and!; [done..| |done].
      destruct (decide (flake = nix)) as [Heq|Hneq].
      * rewrite Heq, lookup_insert_eq in Hf. done.
      * by rewrite lookup_insert_ne in Hf.
    + destruct Hchanged. by rewrite lookup_insert_ne.
  - intros _ ce text' [= <- <-]. destruct (_ && _ && _) eqn:Hb.
    + apply Hwrapper in Hb as (_ & Hd & _).
      destruct (decide (def = nix)) as [Heq|Hneq].
      * rewrite Heq, lookup_insert_eq in Hd. done.
      * rewrite lookup_insert_ne by done. apply lookup_insert_eq.
    + apply lookup_insert_eq.
Qed.

Lemma wrapper_written_once_witness :
  fs (nixify (H:=exampleApi) exampleText nativeProject exampleEnv 5 customWorld).2
    !! "/proj/default.nix"
  = fs customWorld !! "/proj/default.nix".
Proof.
  refine (proj1 (proj2 (wrapper_written_once (H:=exampleApi) exampleText
            nativeProject exampleEnv 5 customWorld)) "/proj/default.nix" _ _ _).
  - apply elem_of_cons. left. reflexivity.
  - discriminate.
  - eexists. reflexivity.
Defined.

Section UnlistedFacts.
Context `{YarnApi} (project : Project) (cacheEntries : JsMap CacheEntry) (depth : nat).

Lemma planLoop_unlisted keys st :
  (∀ k, k ∈ keys → ∃ pkg, map_get (storedPackages project) k = Some pkg
                          ∧ name pkg ∉ isolatedNixBuilds (configuration project)) →
  forEach (planOccurrence project cacheEntries depth) keys st = Return st.
Proof.
  induction keys as [|k keys IH]; intros Hkeys; [done|].
  destruct (Hkeys k) as (pkg & Hget & Hname); [apply elem_of_cons; by left|].
  assert (Hstep : planOccurrence project cacheEntries depth st k = Return st).
  { unfold planOccurrence. by rewrite Hget, bool_decide_false. }
  simpl. rewrite Hstep. simpl.
  apply IH. intros k' Hin. apply Hkeys, elem_of_cons. by right.
Qed.

End UnlistedFacts.




(** ** The cache-entry index *)

Lemma map_keys_map_set {V} (m : JsMap V) k v :
  map_keys (map_set m k v) = set_add (map_keys m) k.
Proof.
  unfold map_keys, set_add. induction m as [|[k' v'] m IH].
  - destruct (decide (k ∈ ([] : JsMap V).*1)) as [Hin|Hin]; [|done].
    by apply elem_of_nil in Hin.
  - cbn [map_set]. destruct (String.eqb k' k) eqn:Heq.
    + apply String.eqb_eq in Heq as ->.
      destruct (decide (k ∈ ((k, v') :: m).*1)) as [Hin|Hin]; [done|].
      destruct Hin. apply elem_of_cons. by left.
    + apply String.eqb_neq in Heq. rewrite fmap_cons, IH.
      destruct (decide (k ∈ m.*1)) as [Hin|Hin];
        destruct (decide (k ∈ ((k', v') :: m).*1)) as [Hin'|Hin']; try done.
      * destruct Hin'. apply elem_of_cons. by right.
      * apply elem_of_cons in Hin' as [->|?]; done.
Qed.

Lemma map_has_keys {V} (m : JsMap V) k : map_has m k = true ↔ k ∈ map_keys m.
Proof.
  unfold map_has, map_keys. induction m as [|[k' v'] m IH]; simpl.
  - split; [done|]. by intros ?%elem_of_nil.
  - rewrite elem_of_cons. destruct (String.eqb k' k) eqn:Heq.
    + apply String.eqb_eq in Heq as ->. split; [by left|done].
    + apply String.eqb_neq in Heq. rewrite IH. split; [by right|].
      intros [->|?]; done.
Qed.

Section IndexerFacts.
Context `{YarnApi} (project : Project) (env : Env).

Local Abbreviation cached := (cached project env).
Local Abbreviation hasCachedContent := (hasCachedContent project env).
Local Abbreviation indexPackage := (indexPackage project env).

Lemma cached_hasCachedContent pkg : cached pkg = true ↔ hasCachedContent pkg.
Proof.
  unfold cached, hasCachedContent.
  destruct (truthy (getLocatorPath pkg _)) as [cachePath|].
  - rewrite bool_decide_eq_true. split; [by exists cachePath|].
    by intros (? & [= <-] & ?).
  - split; [done|]. by intros (? & ? & _).
Qed.

(** One round of the loop over the stored packages. *)
Lemma indexPackage_Return entries pkg entries' :
  indexPackage entries pkg = Return entries' →
  map_keys entries'
  = if cached pkg then set_add (map_keys entries) (stringifyLocator pkg)
    else map_keys entries.
Proof.
  unfold indexPackage, cached.
  destruct (truthy (getLocatorPath pkg _)) as [cachePath|]; [|by intros [= <-]].
  destruct (bool_decide (ppath_basename cachePath ∈ cacheFiles env));
    [|by intros [= <-]].
  intros Hrun. apply result_bind_Return in Hrun as (sum & _ & [= <-]).
  apply map_keys_map_set.
Qed.

Lemma indexLoop_Return pkgs entries entries' :
  forEach indexPackage pkgs entries = Return entries' →
  map_keys entries'
  = foldl set_add (map_keys entries)
      (stringifyLocator <$> filter (λ pkg, cached pkg = true) pkgs).
Proof.
  revert entries. induction pkgs as [|pkg pkgs IH]; intros entries Hrun.
  - by injection Hrun as <-.
  - simpl in Hrun. apply result_bind_Return in Hrun as (entries1 & Hpkg & Hrest).
    apply indexPackage_Return in Hpkg. apply IH in Hrest. rewrite Hrest, Hpkg.
    rewrite filter_cons. by destruct (cached pkg).
Qed.

(** The keys of the index, in the order of their first occurrence. *)
Lemma buildCacheEntries_keys entries :
  buildCacheEntries project env = Return entries →
  map_keys entries
  = foldl set_add []
      (stringifyLocator <$>
         filter (λ pkg, cached pkg = true) (map_values (storedPackages project))).
Proof. apply indexLoop_Return. Qed.

End IndexerFacts.

(** C5.  The keys of the cache-entry index a run builds are the locator
    strings of the stored packages that have a cache path whose file is
    listed in the cache folder.  Hence, for a stored package whose
    locator string no other stored package shares, the string is a key
    exactly when the package has such content, and a package without a
    cache path is not a key. *)
Theorem cacheEntries_keys_exact `{YarnApi} (project : Project) (env : Env)
    (cacheEntries : JsMap CacheEntry) :
  buildCacheEntries project env = Return cacheEntries →
  (∀ s, s ∈ map_keys cacheEntries ↔
        ∃ pkg, pkg ∈ map_values (storedPackages project)
               ∧ stringifyLocator pkg = s ∧ hasCachedContent project env pkg)
  ∧ (∀ pkg,
       pkg ∈ map_values (storedPackages project) →
       (∀ pkg', pkg' ∈ map_values (storedPackages project) →
                stringifyLocator pkg' = stringifyLocator pkg → pkg' = pkg) →
       (stringifyLocator pkg ∈ map_keys cacheEntries
          ↔ hasCachedContent project env pkg)
       ∧ (map_has cacheEntries (stringifyLocator pkg) = true
          ↔ hasCachedContent project env pkg)
       ∧ (getLocatorPath pkg (truthy (storedChecksums project !! locatorHash pkg)) = None →
          stringifyLocator pkg ∉ map_keys cacheEntries)).
Proof.
  intros Hrun. apply buildCacheEntries_keys in Hrun.
  assert (Hkeys : ∀ s, s ∈ map_keys cacheEntries ↔
            ∃ pkg, pkg ∈ map_values (storedPackages project)
                   ∧ stringifyLocator pkg = s ∧ hasCachedContent project env pkg).
  { intros s. rewrite Hrun, elem_of_foldl_set_add, list_elem_of_fmap, elem_of_nil.
    split.
    - intros [[]|(pkg & -> & Hpkg)].
      apply list_elem_of_filter in Hpkg as [Hc Hin].
      exists pkg. split_and!; [done..|]. by apply cached_hasCachedContent.
    - intros (pkg & Hin & <- & Hc). right. exists pkg. split; [done|].
      apply list_elem_of_filter. split; [|done]. by apply cached_hasCachedContent. }
  split; [done|]. intros pkg Hin Hinj.
  assert (Hiff : stringifyLocator pkg ∈ map_keys cacheEntries
                 ↔ hasCachedContent project env pkg).
  { rewrite Hkeys. split.
    - intros (pkg' & Hin' & Heq & Hc). by rewrite <-(Hinj pkg' Hin' Heq).
    - intros Hc. by exists pkg. }
  split_and!; [done|by rewrite map_has_keys|].
  intros Hnone. rewrite Hiff. intros (cachePath & Hpath & _).
  by rewrite Hnone in Hpath.
Qed.

Lemma nativeProject_index :
  buildCacheEntries (H:=exampleApi) nativeProject exampleEnv = Return nativeEntries.
Proof. vm_compute. reflexivity. Qed.

Lemma cacheEntries_keys_exact_witness :
  stringifyLocator (YarnApi:=exampleApi) pkgApp ∉ map_keys nativeEntries.
Proof.
  refine (proj2 (proj2 (proj2 (cacheEntries_keys_exact (H:=exampleApi)
            nativeProject exampleEnv nativeEntries nativeProject_index) pkgApp _ _)) _).
  - apply (bool_decide_unpack _). vm_compute. exact I.
  - apply (proj1 (Forall_forall
      (λ pkg', stringifyLocator (YarnApi:=exampleApi) pkg'
               = stringifyLocator (YarnApi:=exampleApi) pkgApp → pkg' = pkgApp) _)).
    apply (bool_decide_unpack _). vm_compute. exact I.
  - reflexivity.
Defined.

(** ** Determinism *)

Section DepthFacts.
Context `{YarnApi} (project : Project) (cacheEntries : JsMap CacheEntry).




End DepthFacts.


Lemma sort_sorted (xs : list string) : Sorted String.le (sort xs) ∧ sort xs ≡ₚ xs.
Proof. split; [apply Sorted_merge_sort; apply _|apply merge_sort_Permutation]. Qed.

Lemma sort_Permutation (xs ys : list string) : xs ≡ₚ ys → sort xs = sort ys.
Proof.
  intros Hperm. apply (Sorted_unique String.le).
  - apply sort_sorted.
  - apply sort_sorted.
  - by rewrite !(proj2 (sort_sorted _)).
Qed.




Section EnvFacts.
Context `{YarnApi} (project : Project) (env1 env2 : Env).
Hypothesis Hfiles : ∀ file, file ∈ cacheFiles env1 ↔ file ∈ cacheFiles env2.
Hypothesis Hsums : ∀ path, checksumFile env1 path = checksumFile env2 path.




End EnvFacts.





(** * Further properties of the generator *)

(** ** The entries of the cache index *)

Lemma map_get_map_set_eq {V} (m : JsMap V) k v : map_get (map_set m k v) k = Some v.
Proof.
  induction m as [|[k' v'] m IH]; simpl.
  - by rewrite String.eqb_refl.
  - destruct (String.eqb k' k) eqn:Heq; simpl; by rewrite Heq.
Qed.

Lemma map_get_map_set_ne {V} (m : JsMap V) k k' v :
  k ≠ k' → map_get (map_set m k v) k' = map_get m k'.
Proof.
  intros Hne. induction m as [|[k0 v0] m IH]; simpl.
  - by apply String.eqb_neq in Hne as ->.
  - destruct (String.eqb k0 k) eqn:Heq; simpl.
    + apply String.eqb_eq in Heq as ->. by apply String.eqb_neq in Hne as ->.
    + by destruct (String.eqb k0 k').
Qed.

Section IndexEntries.
Context `{YarnApi} (project : Project) (env : Env).

Lemma indexPackage_entry entries pkg entries' :
  indexPackage project env entries pkg = Return entries' →
  (cached project env pkg = false ∧ entries' = entries)
  ∨ (∃ cachePath sum,
       cachePathOf project pkg = Some cachePath
       ∧ ppath_basename cachePath ∈ cacheFiles env
       ∧ entries' = map_set entries (stringifyLocator pkg)
                      (mkCacheEntry (ppath_basename cachePath) sum)
       ∧ match truthy (storedChecksums project !! locatorHash pkg) with
         | Some checksum => sum = lastSegment checksum
         | None => checksumFile env cachePath = Return sum
         end).
Proof.
  unfold indexPackage, cached, cachePathOf.
  destruct (truthy (getLocatorPath pkg _)) as [cachePath|]; [|intros [= <-]; by left].
  destruct (decide (ppath_basename cachePath ∈ cacheFiles env)) as [Hin|Hin].
  - rewrite !bool_decide_true by done. intros Hrun.
    apply result_bind_Return in Hrun as (sum & Hsum & [= <-]).
    right. exists cachePath, sum. split_and!; [done..|].
    destruct (truthy (storedChecksums project !! locatorHash pkg)); [|done].
    by injection Hsum as <-.
  - rewrite !bool_decide_false by done. intros [= <-]. by left.
Qed.

Lemma indexLoop_other pkgs entries entries' s :
  forEach (indexPackage project env) pkgs entries = Return entries' →
  (∀ pkg, pkg ∈ pkgs → stringifyLocator pkg ≠ s) →
  map_get entries' s = map_get entries s.
Proof.
  revert entries. induction pkgs as [|pkg pkgs IH]; intros entries Hrun Hother.
  - by injection Hrun as <-.
  - simpl in Hrun. apply result_bind_Return in Hrun as (entries1 & Hpkg & Hrest).
    rewrite (IH _ Hrest) by (intros pkg' Hin; apply Hother, elem_of_cons; by right).
    apply indexPackage_entry in Hpkg as [[_ ->]|(cachePath & sum & _ & _ & -> & _)];
      [done|].
    apply map_get_map_set_ne, Hother, elem_of_cons. by left.
Qed.

Lemma indexLoop_entry pkgs entries entries' pkg cachePath :
  forEach (indexPackage project env) pkgs entries = Return entries' →
  pkg ∈ pkgs →
  (∀ pkg', pkg' ∈ pkgs → stringifyLocator pkg' = stringifyLocator pkg → pkg' = pkg) →
  cachePathOf project pkg = Some cachePath →
  ppath_basename cachePath ∈ cacheFiles env →
  ∃ sum,
    map_get entries' (stringifyLocator pkg)
      = Some (mkCacheEntry (ppath_basename cachePath) sum)
    ∧ match truthy (storedChecksums project !! locatorHash pkg) with
      | Some checksum => sum = lastSegment checksum
      | None => checksumFile env cachePath = Return sum
      end.
Proof.
  revert entries. induction pkgs as [|pkg0 pkgs IH];
    intros entries Hrun Hin Huniq Hpath Hfile.
  - by apply elem_of_nil in Hin.
  - simpl in Hrun. apply result_bind_Return in Hrun as (entries1 & Hpkg & Hrest).
    destruct (decide (pkg ∈ pkgs)) as [Hlater|Hnot].
    + eapply IH; [done..| |done|done].
      intros pkg' Hin'. apply Huniq, elem_of_cons. by right.
    + apply elem_of_cons in Hin as [->|Hin]; [|done].
      rewrite (indexLoop_other _ _ _ _ Hrest).
      * apply indexPackage_entry in Hpkg
          as [[Hc _]|(cachePath' & sum & Hpath' & _ & -> & Hsum)].
        -- unfold cached in Hc. unfold cachePathOf in Hpath. rewrite Hpath in Hc.
           by rewrite bool_decide_true in Hc.
        -- assert (cachePath' = cachePath) as -> by congruence.
           exists sum. by rewrite map_get_map_set_eq.
      * intros pkg' Hin' Heq. apply Hnot.
        rewrite <-(Huniq pkg'); [done| |done]. apply elem_of_cons. by right.
Qed.

Lemma indexLoop_hashed pkgs entries entries' pkg cachePath :
  forEach (indexPackage project env) pkgs entries = Return entries' →
  pkg ∈ pkgs →
  cachePathOf project pkg = Some cachePath →
  ppath_basename cachePath ∈ cacheFiles env →
  truthy (storedChecksums project !! locatorHash pkg) = None →
  ∃ sum, checksumFile env cachePath = Return sum.
Proof.
  revert entries. induction pkgs as [|pkg0 pkgs IH];
    intros entries Hrun Hin Hpath Hfile Hnone.
  - by apply elem_of_nil in Hin.
  - simpl in Hrun. apply result_bind_Return in Hrun as (entries1 & Hpkg & Hrest).
    apply elem_of_cons in Hin as [->|Hin]; [|by eapply IH].
    apply indexPackage_entry in Hpkg
      as [[Hc _]|(cachePath' & sum & Hpath' & _ & _ & Hsum)].
    + unfold cached in Hc. unfold cachePathOf in Hpath. rewrite Hpath in Hc.
      by rewrite bool_decide_true in Hc.
    + assert (cachePath' = cachePath) as -> by congruence.
      rewrite Hnone in Hsum. by exists sum.
Qed.

Lemma indexLoop_without_hashing pkgs entries :
  (∀ pkg, pkg ∈ pkgs → cached project env pkg = true →
          is_Some (truthy (storedChecksums project !! locatorHash pkg))) →
  ∃ entries', ∀ checksumFile',
    forEach (indexPackage project (withChecksumFile env checksumFile')) pkgs entries
      = Return entries'.
Proof.
  revert entries. induction pkgs as [|pkg pkgs IH]; intros entries Hsums.
  - by exists entries.
  - assert (∃ entries1, ∀ checksumFile',
      indexPackage project (withChecksumFile env checksumFile') entries pkg
        = Return entries1) as [entries1 Hstep].
    { specialize (Hsums pkg (proj2 (elem_of_cons _ _ _) (or_introl eq_refl))).
      unfold indexPackage, cached in *. simpl.
      destruct (truthy (getLocatorPath pkg _)) as [cachePath|]; [|by exists entries].
      destruct (bool_decide (ppath_basename cachePath ∈ cacheFiles env));
        [|by exists entries].
      destruct (Hsums eq_refl) as [checksum ->]. by eexists. }
    destruct (IH entries1) as [entries' Hrest].
    { intros pkg' Hin. apply Hsums, elem_of_cons. by right. }
    exists entries'. intros checksumFile'. simpl. rewrite Hstep. simpl. apply Hrest.
Qed.

End IndexEntries.

(** X1.  In an index that was built, the entry of a stored package
    with cached content, whose locator string no other stored package
    shares, holds the file name of its cache path and, for its
    checksum, the part of the stored checksum after the last slash, or
    the hash of the file when no checksum is stored. *)
Theorem cacheEntries_entry_content `{YarnApi} (project : Project) (env : Env)
    (cacheEntries : JsMap CacheEntry) (pkg : Package) (cachePath : string) :
  buildCacheEntries project env = Return cacheEntries →
  pkg ∈ map_values (storedPackages project) →
  (∀ pkg', pkg' ∈ map_values (storedPackages project) →
           stringifyLocator pkg' = stringifyLocator pkg → pkg' = pkg) →
  truthy (getLocatorPath pkg (truthy (storedChecksums project !! locatorHash pkg)))
    = Some cachePath →
  ppath_basename cachePath ∈ cacheFiles env →
  ∃ sum,
    map_get cacheEntries (stringifyLocator pkg)
      = Some (mkCacheEntry (ppath_basename cachePath) sum)
    ∧ match truthy (storedChecksums project !! locatorHash pkg) with
      | Some checksum => sum = lastSegment checksum
      | None => checksumFile env cachePath = Return sum
      end.
Proof. intros Hrun. exact (indexLoop_entry project env _ [] _ pkg cachePath Hrun). Qed.

Lemma cacheEntries_entry_content_witness :
  ∃ sum,
    map_get nativeEntries "native-lib@npm:1.0.0" = Some (mkCacheEntry "hN.zip" sum)
    ∧ sum = "aaaaaaaa".
Proof.
  refine (cacheEntries_entry_content (H:=exampleApi) nativeProject exampleEnv
            nativeEntries pkgN "/proj/.yarn/cache/hN.zip" nativeProject_index _ _ _ _).
  - apply (bool_decide_unpack _). vm_compute. exact I.
  - apply (proj1 (Forall_forall
      (λ pkg', stringifyLocator (YarnApi:=exampleApi) pkg'
               = stringifyLocator (YarnApi:=exampleApi) pkgN → pkg' = pkgN) _)).
    apply (bool_decide_unpack _). vm_compute. exact I.
  - reflexivity.
  - apply (bool_decide_unpack _). vm_compute. exact I.
Defined.

(** X2.  Hashing is fatal when it fails: if a stored package has
    cached content and no stored checksum and its cache file cannot be
    hashed, no index is built, and the run throws without writing a
    file and without staging or executing anything. *)
Theorem hashing_failure_is_fatal `{YarnApi} (txt : TemplateText) (project : Project)
    (env : Env) (depth : nat) (pkg : Package) (cachePath : string) :
  pkg ∈ map_values (storedPackages project) →
  truthy (getLocatorPath pkg (truthy (storedChecksums project !! locatorHash pkg)))
    = Some cachePath →
  ppath_basename cachePath ∈ cacheFiles env →
  truthy (storedChecksums project !! locatorHash pkg) = None →
  (∀ sum, checksumFile env cachePath ≠ Return sum) →
  (∀ cacheEntries, buildCacheEntries project env ≠ Return cacheEntries)
  ∧ (String.prefix (osTempDir env) (cwd project) = false →
     ∀ w, (∀ u, (nixify txt project env depth w).1 ≠ Return u)
          ∧ fs (nixify txt project env depth w).2 = fs w
          ∧ effects (nixify txt project env depth w).2 = effects w).
Proof.
  intros Hin Hpath Hfile Hnone Hhash.
  assert (Hindex : ∀ cacheEntries, buildCacheEntries project env ≠ Return cacheEntries).
  { intros ce Hrun.
    destruct (indexLoop_hashed _ _ _ _ _ _ _ Hrun Hin Hpath Hfile Hnone) as [sum Hsum].
    by apply (Hhash sum). }
  split; [done|]. intros Htemp w.
  assert (Hfail : ∀ x, projectExpr txt project env depth ≠ Return x).
  { intros [ce text] Hrun. apply projectExpr_Return in Hrun as (Hce & _).
    by apply (Hindex ce). }
  destruct (nixify_aborts txt project env depth w Htemp Hfail) as [rs Hrun].
  rewrite Hrun. simpl. split_and!; [|done..].
  intros u. by destruct (projectExpr txt project env depth).
Qed.

Lemma hashing_failure_is_fatal_witness :
  (∀ u, (nixify (H:=exampleApi) exampleText nativeProject unreadableEnv 5 emptyWorld).1
        ≠ Return u)
  ∧ fs (nixify (H:=exampleApi) exampleText nativeProject unreadableEnv 5 emptyWorld).2
    = fs emptyWorld
  ∧ effects (nixify (H:=exampleApi) exampleText nativeProject unreadableEnv 5 emptyWorld).2
    = effects emptyWorld.
Proof.
  refine (proj2 (hashing_failure_is_fatal (H:=exampleApi) exampleText nativeProject
            unreadableEnv 5 pkgD "/proj/.yarn/cache/hD.zip" _ _ _ _ _) eq_refl emptyWorld).
  - apply (bool_decide_unpack _). vm_compute. exact I.
  - reflexivity.
  - apply (bool_decide_unpack _). vm_compute. exact I.
  - reflexivity.
  - intros sum. discriminate.
Defined.

(** X3.  When every stored package with cached content has a stored
    checksum, the index is built without hashing a file: it is built,
    and it is the same whatever [checksumFile] would answer. *)
Theorem index_without_hashing `{YarnApi} (project : Project) (env : Env) :
  (∀ pkg, pkg ∈ map_values (storedPackages project) →
          cached project env pkg = true →
          is_Some (truthy (storedChecksums project !! locatorHash pkg))) →
  ∃ cacheEntries,
    buildCacheEntries project env = Return cacheEntries
    ∧ ∀ checksumFile',
        buildCacheEntries project (withChecksumFile env checksumFile')
          = Return cacheEntries.
Proof.
  intros Hsums.
  destruct (indexLoop_without_hashing project env _ [] Hsums) as [ce Hce].
  exists ce. split; [|done].
  specialize (Hce (checksumFile env)). by destruct env.
Qed.

Lemma index_without_hashing_witness :
  ∃ cacheEntries,
    buildCacheEntries (H:=exampleApi) checksummedProject exampleEnv = Return cacheEntries
    ∧ ∀ checksumFile',
        buildCacheEntries (H:=exampleApi) checksummedProject
          (withChecksumFile exampleEnv checksumFile') = Return cacheEntries.
Proof.
  apply (index_without_hashing (H:=exampleApi) checksummedProject exampleEnv).
  apply (proj1 (Forall_forall
    (λ pkg, cached (H:=exampleApi) checksummedProject exampleEnv pkg = true →
            is_Some (truthy (storedChecksums checksummedProject !! locatorHash pkg))) _)).
  apply (bool_decide_unpack _). vm_compute. exact I.
Defined.

(** ** The plan of the isolated builds *)

Lemma firstOccurrence_app_l occs occs' d occ :
  firstOccurrence occs d = Some occ → firstOccurrence (occs ++ occs') d = Some occ.
Proof.
  unfold firstOccurrence. rewrite filter_app.
  by destruct (filter _ occs).
Qed.

Lemma firstOccurrence_new occs d occ :
  (∀ occ', occ' ∈ occs → occDevirt occ' ≠ d) →
  occDevirt occ = d →
  firstOccurrence (occs ++ [occ]) d = Some occ.
Proof.
  intros Hnone Hd. unfold firstOccurrence. rewrite filter_app.
  assert (filter (λ occ', occDevirt occ' = d) occs = []) as ->.
  { induction occs as [|occ0 occs IH]; [done|].
    rewrite filter_cons, decide_False.
    - apply IH. intros occ' Hin. apply Hnone, elem_of_cons. by right.
    - apply Hnone, elem_of_cons. by left. }
  simpl. rewrite filter_cons, decide_True by done. done.
Qed.

Section PlanFacts.
Context `{YarnApi} (project : Project) (cacheEntries : JsMap CacheEntry) (depth : nat).

Lemma planLoop_first keys st0 st pre :
  forEach (planOccurrence project cacheEntries depth) keys st0 = Return st →
  (∀ d, d ∈ isolatedPackages st0 ↔ ∃ occ, occ ∈ pre ∧ occDevirt occ = d) →
  Forall2 (isolatedBuildOfFirst project cacheEntries depth pre)
    (isolatedPackages st0) (isolatedCode st0) →
  ∃ occs, occurrencesOf project keys = Some occs
    ∧ Forall2 (isolatedBuildOfFirst project cacheEntries depth (pre ++ occs))
        (isolatedPackages st) (isolatedCode st).
Proof.
  revert st0 pre. induction keys as [|k keys IH]; intros st0 pre Hrun Hseen Hcode.
  - injection Hrun as <-. exists []. by rewrite app_nil_r.
  - simpl in Hrun. apply result_bind_Return in Hrun as (st1 & Hstep & Hrest).
    apply planOccurrence_Return in Hstep as (o & Ho & Hstep).
    destruct o as [occ|].
    + destruct Hstep as (_ & Hpkgs & _ & Hcodes).
      apply (IH _ (pre ++ [occ])) in Hrest as (occs & Hoccs & Hc).
      * exists (occ :: occs). simpl. rewrite Ho, Hoccs. simpl.
        split; [done|]. by rewrite <-(assoc_L (++)) in Hc.
      * intros d. rewrite Hpkgs, elem_of_set_add, Hseen. split.
        -- intros [(occ' & ? & ?)| ->].
           ++ exists occ'. split; [|done]. apply elem_of_app. by left.
           ++ exists occ. split; [|done]. apply elem_of_app. right.
              by apply list_elem_of_singleton.
        -- intros (occ' & [?| ->%list_elem_of_singleton]%elem_of_app & ?).
           ++ left. by exists occ'.
           ++ by right.
      * assert (Hold : Forall2 (isolatedBuildOfFirst project cacheEntries depth
                                  (pre ++ [occ]))
                         (isolatedPackages st0) (isolatedCode st0)).
        { eapply Forall2_impl; [done|].
          intros d code (occ' & closure & Hfirst & ?).
          exists occ', closure. split; [|done]. by apply firstOccurrence_app_l. }
        rewrite Hpkgs. unfold set_add.
        destruct (decide (occDevirt occ ∈ isolatedPackages st0)) as [Hin|Hin].
        -- rewrite bool_decide_true in Hcodes by done. by rewrite Hcodes.
        -- rewrite bool_decide_false in Hcodes by done.
           destruct Hcodes as (closure & Hclosure & ->).
           apply Forall2_app; [done|]. constructor; [|constructor].
           exists occ, closure. split_and!; [|done..].
           apply firstOccurrence_new; [|done].
           intros occ' Hin' Heq. apply Hin, Hseen. by exists occ'.
    + subst st1. apply (IH _ pre) in Hrest as (occs & Hoccs & ?); [|done..].
      exists occs. simpl. by rewrite Ho, Hoccs.
Qed.

Lemma consistent_not_dangling p :
  consistent project p = true → ¬ dangling project p.
Proof.
  unfold consistent. intros Hc.
  apply andb_prop in Hc as [Hc Hdeps]. apply andb_prop in Hc as [Hvirt Hpatch].
  rewrite forallb_forall in Hdeps.
  intros Hdang.
  inversion Hdang as [p' Hv Hget|p' Hp Hget|p' d Hd Hres|p' d h Hd Hres Hget]; subst.
  - rewrite Hv, Hget in Hvirt. by apply bool_decide_eq_true, is_Some_None in Hvirt.
  - rewrite Hp, Hget in Hpatch. by apply bool_decide_eq_true, is_Some_None in Hpatch.
  - apply list_elem_of_In, Hdeps in Hd. rewrite Hres in Hd.
    by apply bool_decide_eq_true, is_Some_None in Hd.
  - apply list_elem_of_In, Hdeps in Hd. rewrite Hres in Hd. simpl in Hd.
    rewrite Hget in Hd. by apply bool_decide_eq_true, is_Some_None in Hd.
Qed.

(** The walker returns from a stored package of a consistent project
    whose edges decrease a rank. *)
Lemma collectTree_returns_stored (rank : Package → nat) pkg :
  Forall (λ p, consistent project p = true) (map_values (storedPackages project)) →
  Forall (λ p, Forall (λ q, rank q < rank p) (successors project p))
    (map_values (storedPackages project)) →
  pkg ∈ map_values (storedPackages project) →
  rank pkg < depth →
  ∃ out, collectTree project cacheEntries depth pkg [] = Return out.
Proof.
  intros Hcons Hrank Hin Hdepth.
  assert (Hstored : ∀ p, reachable project pkg p →
            p ∈ map_values (storedPackages project)).
  { intros p Hp. apply reachable_stored in Hp. by apply elem_of_cons in Hp as [->|?]. }
  destruct (collectTree project cacheEntries depth pkg []) as [out|msg|] eqn:Hrun.
  - by exists out.
  - apply collectTree_fails in Hrun as [?|(? & _ & _ & p & Hp & Hdang)]; [done| |done].
    exfalso. revert Hdang. apply consistent_not_dangling.
    rewrite Forall_forall in Hcons. by apply Hcons, Hstored.
  - exfalso. revert Hrun. eapply (collectTree_ranked _ _ rank pkg);
      [|apply rtc_refl|done].
    apply ranked_stored. apply Forall_cons. split; [|done].
    rewrite Forall_forall in Hrank. by apply Hrank.
Qed.

Lemma planLoop_returns (rank : Package → nat) keys st0 :
  nodeLinker (configuration project) = "pnp" →
  (∀ k, k ∈ keys → is_Some (map_get (storedPackages project) k)) →
  Forall (λ p, consistent project p = true) (map_values (storedPackages project)) →
  Forall (λ p, Forall (λ q, rank q < rank p) (successors project p))
    (map_values (storedPackages project)) →
  Forall (λ p, rank p < depth) (map_values (storedPackages project)) →
  ∃ st, forEach (planOccurrence project cacheEntries depth) keys st0 = Return st.
Proof.
  intros Hpnp Hkeys Hcons Hrank Hdepth. revert st0 Hkeys.
  induction keys as [|k keys IH]; intros st0 Hkeys; [by exists st0|].
  assert (∃ st1, planOccurrence project cacheEntries depth st0 k = Return st1)
    as [st1 Hstep].
  { destruct (Hkeys k) as [pkg Hget]; [apply elem_of_cons; by left|].
    pose proof (map_get_values _ _ _ Hget) as Hin.
    unfold planOccurrence. rewrite Hget.
    destruct (bool_decide (name pkg ∈ _)); simpl; [|by eexists].
    rewrite Hpnp. simpl.
    assert (∃ devirtPkg,
      (if isVirtualLocator pkg then
         match map_get (storedPackages project) (devirtualizeLocator pkg) with
         | Some pkg0 => Return pkg0
         | None => Throw assertLocator
         end
       else Return pkg) = Return devirtPkg) as [devirtPkg ->].
    { destruct (isVirtualLocator pkg) eqn:Hv; [|by eexists].
      destruct (map_get _ (devirtualizeLocator pkg)) as [d|] eqn:Hd; [by eexists|].
      exfalso. rewrite Forall_forall in Hcons.
      apply (consistent_not_dangling pkg (Hcons pkg Hin)). by apply dangling_devirt. }
    simpl. destruct (bool_decide (devirtPkg ∈ isolatedPackages st0)); [by eexists|].
    destruct (collectTree_returns_stored rank pkg Hcons Hrank Hin) as [out ->].
    { rewrite Forall_forall in Hdepth. by apply Hdepth. }
    by eexists. }
  destruct (IH st1) as [st Hrest].
  { intros k' Hin. apply Hkeys, elem_of_cons. by right. }
  exists st. simpl. rewrite Hstep. simpl. apply Hrest.
Qed.

End PlanFacts.

(** X4.  Installed packages that the allow-list does not name are
    passed over: when every installed key is registered and none of
    the packages is listed, the plan is empty, whatever the linker, the
    depth of the stack and the state of the graph below them. *)
Theorem unlisted_packages_are_passed_over `{YarnApi} (project : Project)
    (cacheEntries : JsMap CacheEntry) (depth : nat) :
  (∀ k, k ∈ map_keys (storedBuildState project) →
        ∃ pkg, map_get (storedPackages project) k = Some pkg
               ∧ name pkg ∉ isolatedNixBuilds (configuration project)) →
  planIsolation project cacheEntries depth = Return noIsolation.
Proof.
  intros Hkeys. unfold planIsolation.
  by rewrite planLoop_unlisted.
Qed.

Lemma unlisted_packages_are_passed_over_witness :
  planIsolation (H:=exampleApi) (exampleProject "/proj" "node-modules" ["left-pad"]) [] 0
  = Return noIsolation.
Proof.
  apply (unlisted_packages_are_passed_over (H:=exampleApi)).
  apply (proj1 (Forall_forall
    (λ k, ∃ pkg,
       map_get (storedPackages (exampleProject "/proj" "node-modules" ["left-pad"])) k
         = Some pkg
       ∧ name pkg ∉ isolatedNixBuilds
                      (configuration (exampleProject "/proj" "node-modules" ["left-pad"])))
    _)).
  repeat constructor; eexists; (split; [reflexivity|]);
    intros Hin; apply list_elem_of_singleton in Hin; discriminate.
Defined.

(** X5.  The isolated build of a package is made from its first
    occurrence: its name, version and closure are those of the first
    installed package, in the order of the build state, that
    devirtualizes to it; later occurrences only add injection steps. *)
Theorem isolated_build_from_first_occurrence `{YarnApi} (project : Project)
    (cacheEntries : JsMap CacheEntry) (depth : nat) (st : Isolation) :
  planIsolation project cacheEntries depth = Return st →
  ∃ occs,
    occurrencesOf project (map_keys (storedBuildState project)) = Some occs
    ∧ Forall2 (isolatedBuildOfFirst project cacheEntries depth occs)
        (isolatedPackages st) (isolatedCode st).
Proof.
  unfold planIsolation. intros Hrun.
  apply result_bind_Return in Hrun as (st1 & Hloop & Hst).
  apply (planLoop_first _ _ _ _ _ _ []) in Hloop as (occs & Hoccs & Hc).
  - exists occs. split; [done|]. injection Hst as <-.
    by destruct (Nat.ltb 0 (List.length (isolatedIntegration st1))).
  - intros d. split; [by intros ?%elem_of_nil|]. by intros (? & ?%elem_of_nil & _).
  - constructor.
Qed.

Lemma isolated_build_from_first_occurrence_witness :
  ∃ st,
    planIsolation (H:=exampleApi) nativeProject nativeEntries 5 = Return st
    ∧ ∃ occs,
        occurrencesOf (H:=exampleApi) nativeProject
          (map_keys (storedBuildState nativeProject)) = Some occs
        ∧ Forall2 (isolatedBuildOfFirst (H:=exampleApi) nativeProject nativeEntries 5 occs)
            (isolatedPackages st) (isolatedCode st).
Proof.
  eexists. split.
  - vm_compute. reflexivity.
  - apply (isolated_build_from_first_occurrence (H:=exampleApi)). vm_compute. reflexivity.
Defined.

(** X6.  On a consistent project the plan is made: with the [pnp]
    linker, every installed key registered, no stored package with a
    dangling edge, the edges of the stored packages decreasing a rank
    (no cycle) and a stack deeper than every rank, [planIsolation]
    returns; if the cache index is built as well, the expression is
    rendered. *)
Theorem plan_returns_on_consistent_project `{YarnApi} (txt : TemplateText)
    (project : Project) (env : Env) (rank : Package → nat) (depth : nat) :
  nodeLinker (configuration project) = "pnp" →
  Forall (λ k, is_Some (map_get (storedPackages project) k))
    (map_keys (storedBuildState project)) →
  Forall (λ p, consistent project p = true) (map_values (storedPackages project)) →
  Forall (λ p, Forall (λ q, rank q < rank p) (successors project p))
    (map_values (storedPackages project)) →
  Forall (λ p, rank p < depth) (map_values (storedPackages project)) →
  (∀ cacheEntries, ∃ st, planIsolation project cacheEntries depth = Return st)
  ∧ (∀ cacheEntries,
       buildCacheEntries project env = Return cacheEntries →
       ∃ text, projectExpr txt project env depth = Return (cacheEntries, text)).
Proof.
  intros Hpnp Hkeys Hcons Hrank Hdepth.
  assert (Hplan : ∀ ce, ∃ st, planIsolation project ce depth = Return st).
  { intros ce. unfold planIsolation.
    destruct (planLoop_returns project ce depth rank
                (map_keys (storedBuildState project)) noIsolation) as [st ->]; [done| |done..|].
    - by apply Forall_forall.
    - by eexists. }
  split; [done|]. intros ce Hce. unfold projectExpr. rewrite Hce. simpl.
  destruct (Hplan ce) as [st ->]. by eexists.
Qed.

Lemma plan_returns_on_consistent_project_witness :
  ∃ text,
    projectExpr (H:=exampleApi) exampleText nativeProject exampleEnv 6
    = Return (nativeEntries, text).
Proof.
  refine (proj2 (plan_returns_on_consistent_project (H:=exampleApi) exampleText
            nativeProject exampleEnv exampleRank 6 eq_refl _ _ _ _)
            nativeEntries nativeProject_index).
  - apply (bool_decide_unpack _). vm_compute. exact I.
  - apply (bool_decide_unpack _). vm_compute. exact I.
  - apply (bool_decide_unpack _). vm_compute. exact I.
  - apply (bool_decide_unpack _). vm_compute. exact I.
Defined.

(** ** Preloading the Nix store *)

Section PreloadFacts.
Context `{YarnApi} (project : Project) (env : Env).

Lemma mkdir_run tempDir made path w :
  mkdir tempDir made path w
  = if existsAt w tempDir made path
    then (Throw ("EEXIST: file already exists, mkdir '" +:+ path +:+ "'"), w)
    else if existsAt w tempDir made (ppath_dirname path)
    then (Return tt, {| fs := fs w; reports := reports w;
                        effects := effects w ++ [Mkdir path] |})
    else (Throw ("ENOENT: no such file or directory, mkdir '" +:+ path +:+ "'"), w).
Proof.
  unfold mkdir. rewrite bind_run. unfold pathExists at 1.
  destruct (existsAt w tempDir made path); [done|].
  rewrite bind_run. unfold pathExists at 1.
  by destruct (existsAt w tempDir made (ppath_dirname path)).
Qed.

Lemma stageEntry_run tempDir staged kv w :
  stageEntry env tempDir staged kv w
  = if bool_decide (is_Some (fs w !! storePathOf kv)) then (Return staged, w)
    else if existsAt w tempDir staged.*1 (subdirOf tempDir kv)
    then (Throw ("EEXIST: file already exists, mkdir '"
                   +:+ subdirOf tempDir kv +:+ "'"), w)
    else if existsAt w tempDir staged.*1 (ppath_dirname (subdirOf tempDir kv))
    then (Return (staged ++ [(subdirOf tempDir kv, dstOf tempDir kv)]),
          {| fs := fs w; reports := reports w;
             effects := effects w ++ stagingOf env tempDir kv |})
    else (Throw ("ENOENT: no such file or directory, mkdir '"
                   +:+ subdirOf tempDir kv +:+ "'"), w).
Proof.
  unfold stageEntry. rewrite bind_run. simpl.
  fold (storePathOf kv). destruct (bool_decide (is_Some (fs w !! storePathOf kv))); [done|].
  rewrite bind_run, mkdir_run. fold (subdirOf tempDir kv).
  destruct (existsAt w tempDir staged.*1 (subdirOf tempDir kv)); [done|].
  destruct (existsAt w tempDir staged.*1 (ppath_dirname (subdirOf tempDir kv))); [|done].
  rewrite bind_run. unfold effect, stagingOf, dstOf, srcOf. simpl.
  by rewrite <-(assoc_L (++)).
Qed.

Lemma existsAt_made w tempDir made path :
  path ∈ made → existsAt w tempDir made path = true.
Proof.
  intros Hin. unfold existsAt. rewrite (bool_decide_true (path ∈ made)) by done.
  by rewrite orb_true_r.
Qed.

Lemma stageEntries_run tempDir (entries : list (string * CacheEntry)) staged staged' w w' :
  stageEntries env tempDir staged entries w = (Return staged', w') →
  NoDup staged.*1 →
  staged' = staged ++ ((λ kv, (subdirOf tempDir kv, dstOf tempDir kv))
                         <$> filter (λ kv, fs w !! storePathOf kv = None) entries)
  ∧ NoDup staged'.*1
  ∧ fs w' = fs w ∧ reports w' = reports w
  ∧ effects w' = effects w
      ++ concat (stagingOf env tempDir
                   <$> filter (λ kv, fs w !! storePathOf kv = None) entries).
Proof.
  revert staged w. induction entries as [|kv entries IH]; intros staged w Hrun Hnd.
  - injection Hrun as <- <-. rewrite ?filter_nil. simpl. by rewrite !app_nil_r.
  - simpl in Hrun. rewrite bind_run, stageEntry_run in Hrun. rewrite filter_cons.
    destruct (fs w !! storePathOf kv) as [content|] eqn:Hstore.
    + rewrite bool_decide_true in Hrun by done.
      rewrite decide_False by done. by apply IH.
    + rewrite bool_decide_false in Hrun by (by intros [? ?]).
      rewrite decide_True by done.
      destruct (existsAt w tempDir staged.*1 (subdirOf tempDir kv)) eqn:Hexists; [done|].
      destruct (existsAt w tempDir staged.*1 (ppath_dirname (subdirOf tempDir kv)));
        [|done].
      assert (Hin : subdirOf tempDir kv ∉ staged.*1).
      { intros Hin. by rewrite existsAt_made in Hexists. }
      apply IH in Hrun as (-> & Hnd' & Hfs & Hrep & Heff).
      * simpl in *.
        split_and!; [|done..|].
        -- by rewrite <-(assoc_L (++)).
        -- rewrite Heff. by rewrite <-!(assoc_L (++)).
      * rewrite fmap_app. apply NoDup_app. split_and!; [done| |apply NoDup_singleton].
        intros x Hx ->%list_elem_of_singleton. done.
Qed.


End PreloadFacts.



(** X8.  Staging passes over what the store already has: a staging
    loop that returns has staged, in order, exactly the entries whose
    fixed-output store path does not exist, each in a directory of its
    own, by one [mkdir] and one copy per entry; entries already in the
    store are neither copied nor handed on, and no file or report
    changes. *)
Theorem staging_passes_over_stored `{YarnApi} (env : Env) (tempDir : string)
    (entries : list (string * CacheEntry)) (staged : list (string * string))
    (w w' : World) :
  stageEntries env tempDir [] entries w = (Return staged, w') →
  staged = (λ kv, (subdirOf tempDir kv, dstOf tempDir kv))
             <$> filter (λ kv, fs w !! storePathOf kv = None) entries
  ∧ NoDup staged.*1
  ∧ fs w' = fs w ∧ reports w' = reports w
  ∧ effects w' = effects w
      ++ concat (stagingOf env tempDir
                   <$> filter (λ kv, fs w !! storePathOf kv = None) entries).
Proof.
  intros Hrun. apply stageEntries_run in Hrun; [done|]. apply NoDup_nil_2.
Qed.

Lemma staging_passes_over_stored_witness :
  ∃ staged w',
    stageEntries (H:=exampleApi) exampleEnv "/tmp/xfs-0001" [] nativeEntries storeWorld
      = (Return staged, w')
    ∧ staged = (λ kv, (subdirOf (H:=exampleApi) "/tmp/xfs-0001" kv,
                        dstOf (H:=exampleApi) "/tmp/xfs-0001" kv))
                 <$> filter (λ kv, fs storeWorld !! storePathOf (H:=exampleApi) kv = None)
                       (nativeEntries : list (string * CacheEntry))
    ∧ List.length staged = 3.
Proof.
  eexists _, _. split; [vm_compute; reflexivity|].
  split.
  - refine (proj1 (staging_passes_over_stored (H:=exampleApi) exampleEnv
              "/tmp/xfs-0001" nativeEntries _ storeWorld _ _)).
    vm_compute. reflexivity.
  - reflexivity.
Defined.

(** ** The preload step as a whole *)

Section PreloadRun.
Context `{YarnApi} (project : Project) (env : Env).

(** A staging loop that returns found, for every missing entry, a
    directory that did not exist. *)
Lemma stageEntries_made tempDir (entries : list (string * CacheEntry)) staged staged' w w' :
  stageEntries env tempDir staged entries w = (Return staged', w') →
  ∀ kv, kv ∈ filter (λ kv, fs w !! storePathOf kv = None) entries →
    subdirOf tempDir kv ≠ tempDir
    ∧ fs w !! subdirOf tempDir kv = None
    ∧ subdirOf tempDir kv ∉ staged.*1.
Proof.
  revert staged w. induction entries as [|kv entries IH]; intros staged w Hrun kv' Hkv'.
  - rewrite filter_nil in Hkv'. by apply elem_of_nil in Hkv'.
  - simpl in Hrun. rewrite bind_run, stageEntry_run in Hrun. rewrite filter_cons in Hkv'.
    destruct (fs w !! storePathOf kv) as [content|] eqn:Hstore.
    + rewrite bool_decide_true in Hrun by done.
      rewrite decide_False in Hkv' by done. by eapply IH.
    + rewrite bool_decide_false in Hrun by (by intros [? ?]).
      rewrite decide_True in Hkv' by done.
      destruct (existsAt w tempDir staged.*1 (subdirOf tempDir kv)) eqn:Hexists; [done|].
      destruct (existsAt w tempDir staged.*1 (ppath_dirname (subdirOf tempDir kv)));
        [|done].
      apply elem_of_cons in Hkv' as [->|Hkv'].
      * unfold existsAt in Hexists.
        apply orb_false_elim in Hexists as [Hexists Hfs].
        apply orb_false_elim in Hexists as [Htemp Hmade].
        apply bool_decide_eq_false in Htemp, Hmade, Hfs.
        split_and!; [done| |done]. by apply eq_None_not_Some.
      * destruct (IH _ _ Hrun kv' Hkv') as (Htemp & Hfs & Hmade).
        split_and!; [done..|]. intros Hin. apply Hmade.
        rewrite fmap_app. apply elem_of_app. by left.
Qed.

(** The staging loop returns or throws one of the two errors of [mkdir]. *)
Lemma stageEntries_outcome tempDir (entries : list (string * CacheEntry)) staged w :
  (∃ staged' w', stageEntries env tempDir staged entries w = (Return staged', w'))
  ∨ (∃ msg w', stageEntries env tempDir staged entries w = (Throw msg, w')
               ∧ (String.prefix "EEXIST" msg = true ∨ String.prefix "ENOENT" msg = true)).
Proof.
  revert staged w. induction entries as [|kv entries IH]; intros staged w.
  - left. by eexists _, _.
  - simpl. rewrite bind_run, stageEntry_run.
    destruct (bool_decide (is_Some (fs w !! storePathOf kv))); [apply IH|].
    destruct (existsAt w tempDir staged.*1 (subdirOf tempDir kv)).
    { right. eexists _, _. split; [done|]. by left. }
    destruct (existsAt w tempDir staged.*1 (ppath_dirname (subdirOf tempDir kv))).
    + apply IH.
    + right. eexists _, _. split; [done|]. by right.
Qed.

(** The preload step after a staging loop that returned. *)
Lemma preload_run cacheEntries w staged w1 outcome w2 :
  enableNixPreload (configuration project) = true →
  is_Some (fs w !! "/nix/store") →
  stageEntries env (mktempDir env) [] cacheEntries w = (Return staged, w1) →
  preloadBatches env (List.length staged.*2) staged.*2 w1 = (Return outcome, w2) →
  preload project env cacheEntries w
  = (match outcome with ExecFailed msg => Throw msg | _ => Return tt end,
     {| fs := fs w2;
        reports := reports w2
          ++ match outcome with
             | ExecOk =>
                 if Nat.eqb (List.length staged.*2) 0 then []
                 else [ReportInfo ("Preloaded " +:+ pretty (List.length staged.*2)
                                     +:+ " packages into the Nix store")]
             | _ => []
             end;
        effects := effects w2 ++ [RemoveTemp (mktempDir env)] |}).
Proof.
  intros Henable Hstore Hstage Hbatches. unfold preload.
  rewrite bind_run. unfold existsSync at 1. rewrite Henable, bool_decide_true by done.
  cbn [andb when]. unfold finally.
  rewrite bind_run, Hstage, bind_run, Hbatches.
  destruct outcome as [| |msg].
  - destruct (Nat.eqb (List.length staged.*2) 0); destruct w2; simpl;
      by rewrite ?app_nil_r.
  - destruct w2; simpl; by rewrite ?app_nil_r.
  - destruct w2; simpl; by rewrite ?app_nil_r.
Qed.

(** The first batch decides the outcome when its call does not succeed. *)
Lemma preloadBatches_first_fails toPreload w :
  toPreload ≠ [] →
  execNixStore env ("--add-fixed" :: "sha512" :: take 100 toPreload) ≠ ExecOk →
  preloadBatches env (List.length toPreload) toPreload w
  = (Return (execNixStore env ("--add-fixed" :: "sha512" :: take 100 toPreload)),
     {| fs := fs w; reports := reports w;
        effects := effects w ++ [execOfBatch (take 100 toPreload)] |}).
Proof.
  intros Hne Hfail. destruct toPreload as [|dst toPreload]; [done|].
  cbn [List.length preloadBatches]. rewrite bind_run. cbn [effect].
  change (["--add-fixed"; "sha512"] ++ take 100 (dst :: toPreload))
    with ("--add-fixed" :: "sha512" :: take 100 (dst :: toPreload)).
  by destruct (execNixStore env _).
Qed.

(** With a [nix-store] that always succeeds the loop ends with success. *)
Lemma preloadBatches_all_ok rounds toPreload w :
  (∀ args, execNixStore env args = ExecOk) →
  ∃ w', preloadBatches env rounds toPreload w = (Return ExecOk, w')
        ∧ fs w' = fs w ∧ reports w' = reports w.
Proof.
  intros Hok. revert toPreload w. induction rounds as [|rounds IH]; intros toPreload w.
  - by eexists.
  - destruct toPreload as [|dst toPreload]; [by eexists|].
    cbn [preloadBatches]. rewrite bind_run. cbn [effect]. rewrite Hok.
    edestruct IH as (w' & -> & ? & ?). by eexists.
Qed.

End PreloadRun.

(** X9.  A missing Nix installation does not break the run: when the
    first [nix-store] call fails with [ENOENT], the preload step returns
    normally after that one call, reports nothing, and removes its
    temporary directory. *)
Theorem preload_tolerates_missing_nix `{YarnApi} (project : Project) (env : Env)
    (cacheEntries : JsMap CacheEntry) (w w1 : World) (staged : list (string * string)) :
  enableNixPreload (configuration project) = true →
  is_Some (fs w !! "/nix/store") →
  stageEntries env (mktempDir env) [] cacheEntries w = (Return staged, w1) →
  staged ≠ [] →
  execNixStore env ("--add-fixed" :: "sha512" :: take 100 staged.*2) = ExecENOENT →
  preload project env cacheEntries w
  = (Return tt,
     {| fs := fs w; reports := reports w;
        effects := effects w1
          ++ [execOfBatch (take 100 staged.*2); RemoveTemp (mktempDir env)] |}).
Proof.
  intros Henable Hstore Hstage Hne Hexec.
  pose proof (stageEntries_run env _ _ _ _ _ _ Hstage NoDup_nil_2)
    as (_ & _ & Hfs & Hrep & _).
  rewrite (preload_run project env cacheEntries w staged w1 ExecENOENT
             {| fs := fs w1; reports := reports w1;
                effects := effects w1 ++ [execOfBatch (take 100 staged.*2)] |});
    [|done..| ].
  - simpl. by rewrite Hfs, Hrep, app_nil_r, <-(assoc_L (++)).
  - rewrite <-Hexec. apply preloadBatches_first_fails.
    + by destruct staged.
    + by rewrite Hexec.
Qed.

Lemma preload_tolerates_missing_nix_witness :
  (preload (H:=exampleApi) nativeProject
     (withExecNixStore exampleEnv (λ _, ExecENOENT)) nativeEntries storeWorld).1
  = Return tt.
Proof.
  refine (f_equal fst
    (preload_tolerates_missing_nix (H:=exampleApi) nativeProject
       (withExecNixStore exampleEnv (λ _, ExecENOENT)) nativeEntries storeWorld
       _ _ _ _ _ _ _)).
  - reflexivity.
  - apply (bool_decide_unpack _). vm_compute. exact I.
  - vm_compute. reflexivity.
  - discriminate.
  - reflexivity.
Defined.

(** X10.  Any other failure of [nix-store] is thrown on: when the first
    call fails for another reason, the preload step throws that error
    after the one call, reports nothing, and still removes its temporary
    directory. *)
Theorem preload_failure_is_thrown `{YarnApi} (project : Project) (env : Env)
    (cacheEntries : JsMap CacheEntry) (w w1 : World) (staged : list (string * string))
    (msg : string) :
  enableNixPreload (configuration project) = true →
  is_Some (fs w !! "/nix/store") →
  stageEntries env (mktempDir env) [] cacheEntries w = (Return staged, w1) →
  staged ≠ [] →
  execNixStore env ("--add-fixed" :: "sha512" :: take 100 staged.*2) = ExecFailed msg →
  preload project env cacheEntries w
  = (Throw msg,
     {| fs := fs w; reports := reports w;
        effects := effects w1
          ++ [execOfBatch (take 100 staged.*2); RemoveTemp (mktempDir env)] |}).
Proof.
  intros Henable Hstore Hstage Hne Hexec.
  pose proof (stageEntries_run env _ _ _ _ _ _ Hstage NoDup_nil_2)
    as (_ & _ & Hfs & Hrep & _).
  rewrite (preload_run project env cacheEntries w staged w1 (ExecFailed msg)
             {| fs := fs w1; reports := reports w1;
                effects := effects w1 ++ [execOfBatch (take 100 staged.*2)] |});
    [|done..| ].
  - simpl. by rewrite Hfs, Hrep, app_nil_r, <-(assoc_L (++)).
  - rewrite <-Hexec. apply preloadBatches_first_fails.
    + by destruct staged.
    + by rewrite Hexec.
Qed.

Lemma preload_failure_is_thrown_witness :
  (preload (H:=exampleApi) nativeProject
     (withExecNixStore exampleEnv (λ _, ExecFailed "nix-store exited with code 1"))
     nativeEntries storeWorld).1
  = Throw "nix-store exited with code 1".
Proof.
  refine (f_equal fst
    (preload_failure_is_thrown (H:=exampleApi) nativeProject
       (withExecNixStore exampleEnv (λ _, ExecFailed "nix-store exited with code 1"))
       nativeEntries storeWorld _ _ _ _ _ _ _ _)).
  - reflexivity.
  - apply (bool_decide_unpack _). vm_compute. exact I.
  - vm_compute. reflexivity.
  - discriminate.
  - reflexivity.
Defined.

(** X11.  After a staging loop that returned, with a [nix-store] that
    succeeds, the preload step returns and reports the number of
    entries that were missing from the store, or nothing at all when
    none was missing, and ends by removing its temporary directory. *)
Theorem preload_reports_missing_entries `{YarnApi} (project : Project) (env : Env)
    (cacheEntries : JsMap CacheEntry) (w w1 : World) (staged : list (string * string)) :
  enableNixPreload (configuration project) = true →
  is_Some (fs w !! "/nix/store") →
  stageEntries env (mktempDir env) [] cacheEntries w = (Return staged, w1) →
  (∀ args, execNixStore env args = ExecOk) →
  ∃ w', preload project env cacheEntries w = (Return tt, w')
        ∧ List.length staged = List.length (missingFromStore w cacheEntries)
        ∧ reports w'
          = reports w
            ++ match List.length (missingFromStore w cacheEntries) with
               | 0 => []
               | S n => [ReportInfo ("Preloaded " +:+ pretty (S n)
                                       +:+ " packages into the Nix store")]
               end
        ∧ last (effects w') = Some (RemoveTemp (mktempDir env)).
Proof.
  intros Henable Hstore Hstage Hok.
  pose proof (stageEntries_run env _ _ _ _ _ _ Hstage NoDup_nil_2)
    as (Hstaged & _ & Hfs & Hrep & _).
  destruct (preloadBatches_all_ok env (List.length staged.*2) staged.*2 w1 Hok)
    as (w2 & Hbatches & Hfs2 & Hrep2).
  rewrite (preload_run project env cacheEntries w staged w1 ExecOk w2) by done.
  assert (Hlen : List.length staged = List.length (missingFromStore w cacheEntries)).
  { rewrite Hstaged. cbn [app]. unfold missingFromStore. by rewrite length_fmap. }
  eexists. split; [done|]. simpl. split_and!.
  - done.
  - rewrite Hrep2, Hrep. f_equal. rewrite length_fmap, Hlen.
    by destruct (List.length (missingFromStore w cacheEntries)).
  - by rewrite last_snoc.
Qed.

Lemma preload_reports_missing_entries_witness :
  ∃ w', preload (H:=exampleApi) nativeProject exampleEnv nativeEntries storeWorld
        = (Return tt, w')
        ∧ reports w' = [ReportInfo "Preloaded 3 packages into the Nix store"].
Proof.
  destruct (stageEntries (H:=exampleApi) exampleEnv (mktempDir exampleEnv) []
              nativeEntries storeWorld) as [[staged| |] w1] eqn:Hstage;
    [|vm_compute in Hstage; discriminate Hstage..].
  destruct (preload_reports_missing_entries (H:=exampleApi) nativeProject exampleEnv
              nativeEntries storeWorld w1 staged) as (w' & Hrun & _ & Hrep & _).
  - reflexivity.
  - apply (bool_decide_unpack _). vm_compute. exact I.
  - exact Hstage.
  - reflexivity.
  - exists w'. split; [exact Hrun|]. rewrite Hrep. vm_compute. reflexivity.
Defined.

(** X12.  Every directory the staging loop makes must be new.  A loop
    that returns has given the entries missing from the store pairwise
    distinct directories, none of them the temporary directory itself
    or a path that existed; so when two missing entries get the same
    directory (their hashes share the first seven characters), or an
    entry gets the temporary directory itself (its hash is empty), the
    loop throws the error of [mkdir] and stages no further. *)
Theorem staging_needs_distinct_directories `{YarnApi} (env : Env) (tempDir : string)
    (entries : JsMap CacheEntry) (w : World) :
  (∀ staged w',
     stageEntries env tempDir [] entries w = (Return staged, w') →
     NoDup (subdirOf tempDir <$> missingFromStore w entries)
     ∧ ∀ kv, kv ∈ missingFromStore w entries →
         subdirOf tempDir kv ≠ tempDir ∧ fs w !! subdirOf tempDir kv = None)
  ∧ (¬ NoDup (subdirOf tempDir <$> missingFromStore w entries)
     ∨ (∃ kv, kv ∈ missingFromStore w entries
              ∧ (subdirOf tempDir kv = tempDir ∨ is_Some (fs w !! subdirOf tempDir kv))) →
     ∃ msg w', stageEntries env tempDir [] entries w = (Throw msg, w')
               ∧ (String.prefix "EEXIST" msg = true ∨ String.prefix "ENOENT" msg = true)).
Proof.
  assert (Hreturns : ∀ staged w',
    stageEntries env tempDir [] entries w = (Return staged, w') →
    NoDup (subdirOf tempDir <$> missingFromStore w entries)
    ∧ ∀ kv, kv ∈ missingFromStore w entries →
        subdirOf tempDir kv ≠ tempDir ∧ fs w !! subdirOf tempDir kv = None).
  { intros staged w' Hrun. split.
    - pose proof (stageEntries_run env _ _ _ _ _ _ Hrun NoDup_nil_2) as (-> & Hnd & _).
      cbn [app] in Hnd. rewrite <-list_fmap_compose in Hnd. exact Hnd.
    - intros kv Hkv.
      destruct (stageEntries_made env _ _ _ _ _ _ Hrun kv Hkv) as (? & ? & _). done. }
  split; [done|]. intros Hbad.
  destruct (stageEntries_outcome env tempDir entries [] w)
    as [(staged & w' & Hrun)|Hthrows]; [|done].
  exfalso. destruct (Hreturns _ _ Hrun) as [Hnd Hnew].
  destruct Hbad as [Hdup|(kv & Hkv & [Htemp|[content Hcontent]])].
  - done.
  - by destruct (Hnew kv Hkv).
  - destruct (Hnew kv Hkv) as [_ Hnone]. congruence.
Qed.

Lemma staging_needs_distinct_directories_witness :
  (∃ msg w', stageEntries (H:=exampleApi) exampleEnv "/tmp/xfs-0001" []
               collidingEntries storeWorld = (Throw msg, w')
             ∧ (String.prefix "EEXIST" msg = true ∨ String.prefix "ENOENT" msg = true))
  ∧ (∃ msg w', stageEntries (H:=exampleApi) exampleEnv "/tmp/xfs-0001" []
                 hashlessEntries storeWorld = (Throw msg, w')
               ∧ (String.prefix "EEXIST" msg = true ∨ String.prefix "ENOENT" msg = true)).
Proof.
  split.
  - apply (proj2 (staging_needs_distinct_directories (H:=exampleApi) exampleEnv
                    "/tmp/xfs-0001" collidingEntries storeWorld)).
    left. intros Hnd. revert Hnd. apply (bool_decide_unpack _). vm_compute. exact I.
  - apply (proj2 (staging_needs_distinct_directories (H:=exampleApi) exampleEnv
                    "/tmp/xfs-0001" hashlessEntries storeWorld)).
    right. exists ("broken@npm:1.0.0", mkCacheEntry "b0.zip" ""). split.
    + apply list_elem_of_In. vm_compute. left. reflexivity.
    + left. vm_compute. reflexivity.
Defined.

(** ** Reports of a run *)

Section ReportFacts.

Lemma reports_no_error_same {A} (m : M A) :
  (∀ w, reports (m w).2 = reports w) → reports_no_error m.
Proof. intros Hm w. exists []. by rewrite Hm, app_nil_r. Qed.

Lemma reports_no_error_bind {A B} (m : M A) (k : A → M B) :
  reports_no_error m → (∀ a, reports_no_error (k a)) → reports_no_error (m ≫= k).
Proof.
  intros Hm Hk w. rewrite bind_run. destruct (Hm w) as (rs1 & Hrs1 & Hok1).
  destruct (m w) as [[a|msg|] w1]; simpl in *; [|by exists rs1..].
  destruct (Hk a w1) as (rs2 & Hrs2 & Hok2). exists (rs1 ++ rs2).
  split; [|by apply Forall_app]. by rewrite Hrs2, Hrs1, (assoc_L (++)).
Qed.

Lemma reports_no_error_report r : isError r = false → reports_no_error (report r).
Proof. intros Hr w. exists [r]. split; [done|]. by constructor. Qed.

Lemma reports_no_error_when b m : reports_no_error m → reports_no_error (when b m).
Proof. destruct b; [done|]. intros _. by apply reports_no_error_same. Qed.

Lemma reports_no_error_finally {A} (body : M A) cleanup :
  reports_no_error body → reports_no_error cleanup →
  reports_no_error (finally body cleanup).
Proof.
  intros Hb Hc w. unfold finally. destruct (Hb w) as (rs1 & Hrs1 & Hok1).
  destruct (body w) as [r w1]. simpl in *.
  destruct (Hc w1) as (rs2 & Hrs2 & Hok2). exists (rs1 ++ rs2).
  split; [|by apply Forall_app]. by rewrite Hrs2, Hrs1, (assoc_L (++)).
Qed.

Lemma reports_no_error_forEachM {A} (body : A → M unit) xs :
  (∀ x, reports_no_error (body x)) → reports_no_error (forEachM body xs).
Proof.
  intros Hbody. induction xs as [|x xs IH]; [by apply reports_no_error_same|].
  simpl. apply reports_no_error_bind; [done|]. by intros _.
Qed.

Lemma exitCode_no_error w rs :
  Forall (λ r, isError r = false) rs →
  exitCode {| fs := fs w; reports := reports w ++ rs; effects := effects w |}
  = exitCode w.
Proof.
  intros Hrs. unfold exitCode. simpl. rewrite existsb_app.
  assert (existsb isError rs = false) as ->; [|by rewrite orb_false_r].
  induction Hrs as [|r rs Hr _ IH]; [done|]. simpl. by rewrite Hr, IH.
Qed.

End ReportFacts.

Section NixifyReports.
Context `{YarnApi} (txt : TemplateText) (project : Project) (env : Env) (depth : nat).

Lemma reports_no_error_stageEntries tempDir entries staged :
  reports_no_error (stageEntries env tempDir staged entries).
Proof.
  revert staged. induction entries as [|kv entries IH]; intros staged;
    [by apply reports_no_error_same|].
  simpl. apply reports_no_error_bind; [|done].
  apply reports_no_error_same. intros w. rewrite stageEntry_run.
  destruct (bool_decide _); [done|].
  by repeat destruct (existsAt _ _ _ _).
Qed.

Lemma reports_no_error_preloadBatches rounds toPreload :
  reports_no_error (preloadBatches env rounds toPreload).
Proof.
  revert toPreload. induction rounds as [|rounds IH]; intros toPreload;
    [by apply reports_no_error_same|].
  destruct toPreload as [|dst toPreload]; [by apply reports_no_error_same|].
  simpl. apply reports_no_error_bind; [by apply reports_no_error_same|intros _].
  destruct (execNixStore env _); [apply IH|by apply reports_no_error_same..].
Qed.

Lemma reports_no_error_preload cacheEntries :
  reports_no_error (preload project env cacheEntries).
Proof.
  unfold preload. apply reports_no_error_bind; [by apply reports_no_error_same|].
  intros hasStore. apply reports_no_error_when, reports_no_error_finally;
    [|by apply reports_no_error_same].
  apply reports_no_error_bind; [apply reports_no_error_stageEntries|intros staged].
  apply reports_no_error_bind; [apply reports_no_error_preloadBatches|intros outcome].
  destruct outcome; [|by apply reports_no_error_same..].
  by apply reports_no_error_when, reports_no_error_report.
Qed.

Lemma reports_no_error_nixify : reports_no_error (nixify txt project env depth).
Proof.
  unfold nixify. destruct (String.prefix _ _); [by apply reports_no_error_report|].
  apply reports_no_error_bind; [|intros _].
  { unfold sanityChecks.
    repeat (apply reports_no_error_bind;
            [by apply reports_no_error_when, reports_no_error_report|intros _]).
    apply reports_no_error_forEachM. intros source.
    by apply reports_no_error_when, reports_no_error_report. }
  apply reports_no_error_bind; [by apply reports_no_error_same|intros rendered].
  apply reports_no_error_bind; [by apply reports_no_error_same|intros _].
  apply reports_no_error_bind; [|intros _; apply reports_no_error_preload].
  unfold writeDefaultExpr. apply reports_no_error_when.
  apply reports_no_error_bind; [by apply reports_no_error_same|intros hasDefault].
  apply reports_no_error_bind; [by apply reports_no_error_same|intros hasFlake].
  apply reports_no_error_when.
  apply reports_no_error_bind; [by apply reports_no_error_same|intros _].
  by apply reports_no_error_report.
Qed.

End NixifyReports.

(** X13.  The generator never reports an error: whatever the project,
    a run only adds warnings and infos to the report, so the exit code
    of the report is what it was before; every failure of the generator
    is an exception. *)
Theorem nixify_never_reports_error `{YarnApi} (txt : TemplateText) (project : Project)
    (env : Env) (depth : nat) (w : World) :
  ∃ rs, reports (nixify txt project env depth w).2 = reports w ++ rs
        ∧ Forall (λ r, isError r = false) rs
        ∧ exitCode (nixify txt project env depth w).2 = exitCode w.
Proof.
  destruct (reports_no_error_nixify txt project env depth w) as (rs & Hrs & Hok).
  exists rs. split_and!; [done..|].
  rewrite <-(exitCode_no_error w rs Hok). unfold exitCode. by rewrite Hrs.
Qed.

(** * The [nixify] command of [src/index.ts] *)

(** ** The [filterSource] entries *)

Section ClosureFacts.
Context `{YarnApi} (project : Project).

Local Abbreviation rel := (ppath_relative (cwd project)).
Local Abbreviation dirEntry := (String.append "directory:").
Local Abbreviation regEntry := (String.append "regular:").

Lemma dirEntry_inj d d' : dirEntry d = dirEntry d' → d = d'.
Proof. intros Heq. cbn in Heq. by simplify_eq. Qed.

Lemma regEntry_inj r r' : regEntry r = regEntry r' → r = r'.
Proof. intros Heq. cbn in Heq. by simplify_eq. Qed.

Lemma regEntry_dirEntry r d : regEntry r ≠ dirEntry d.
Proof. intros Heq. cbn in Heq. by simplify_eq. Qed.

(** What the directory loop adds. *)
Lemma addDirectories_spec fuel dir entries entries' :
  addDirectories fuel dir entries = Some entries' →
  (∀ e, e ∈ entries → e ∈ entries')
  ∧ (NoDup entries → NoDup entries')
  ∧ (dir ≠ "." → dirEntry dir ∈ entries')
  ∧ (∀ e, e ∈ entries' → e ∈ entries ∨ ∃ d, e = dirEntry d ∧ d ≠ ".")
  ∧ ((∀ d, dirEntry d ∈ entries → ppath_dirname d ≠ "." →
        dirEntry (ppath_dirname d) ∈ entries ∨ ppath_dirname d = dir) →
     ∀ d, dirEntry d ∈ entries' → ppath_dirname d ≠ "." →
       dirEntry (ppath_dirname d) ∈ entries').
Proof.
  revert dir entries. induction fuel as [|fuel IH]; intros dir entries Hrun;
    simpl in Hrun; destruct (String.eqb_spec dir ".") as [->|Hdir]; simplify_eq.
  - split_and!; [done..|naive_solver|]. intros Hclosed d Hd Hup.
    destruct (Hclosed d Hd Hup); done.
  - split_and!; [done..|naive_solver|]. intros Hclosed d Hd Hup.
    destruct (Hclosed d Hd Hup); done.
  - apply IH in Hrun as (Hsub & Hnd & Hdir' & Hnew & Hclosed').
    split_and!.
    + intros e He. apply Hsub, elem_of_set_add. by left.
    + intros Hnd0. by apply Hnd, NoDup_set_add.
    + intros _. apply Hsub, elem_of_set_add. by right.
    + intros e He. destruct (Hnew e He) as [Hin|Hd]; [|by right].
      apply elem_of_set_add in Hin as [Hin| ->]; [by left|right; by exists dir].
    + intros Hclosed. apply Hclosed'. intros d Hd Hup.
      apply elem_of_set_add in Hd as [Hd|Hd].
      * destruct (Hclosed d Hd Hup) as [Hin|Heq].
        -- left. apply elem_of_set_add. by left.
        -- left. apply elem_of_set_add. right. by rewrite Heq.
      * apply dirEntry_inj in Hd as ->. by right.
Qed.

(** The directory loop ends on a path that is not absolute, within as
    many rounds as the path has characters, and one more. *)
Lemma addDirectories_ends fuel dir entries :
  dirnameShortens →
  String.prefix "/" dir = false →
  dir = "." ∨ String.length dir < fuel →
  is_Some (addDirectories fuel dir entries).
Proof.
  intros Hshort. revert dir entries.
  induction fuel as [|fuel IH]; intros dir entries Hrel Hlen;
    simpl; destruct (String.eqb_spec dir ".") as [->|Hdir]; try done.
  - destruct Hlen as [?|Hlen]; [done|lia].
  - destruct Hlen as [?|Hlen]; [done|].
    destruct (Hshort dir Hrel) as [->|[Hless Hrel']].
    + apply IH; [done|by left].
    + apply IH; [done|right; lia].
Qed.

Lemma yarnClosureEntries_spec fuel inputs acc entries warnings :
  yarnClosureEntries project fuel inputs acc = Some (entries, warnings) →
  warnings = acc.2 ++ (ignoredPath <$> filter (λ i, String.prefix ".." (rel i) = true) inputs)
  ∧ (∀ e, e ∈ acc.1 → e ∈ entries)
  ∧ (NoDup acc.1 → NoDup entries)
  ∧ (∀ i, i ∈ inputs → String.prefix ".." (rel i) = false →
       regEntry (rel i) ∈ entries
       ∧ (ppath_dirname (rel i) ≠ "." → dirEntry (ppath_dirname (rel i)) ∈ entries))
  ∧ (holdsParents acc.1 → holdsParents entries)
  ∧ (∀ e, e ∈ entries →
       e ∈ acc.1
       ∨ (∃ i, i ∈ inputs ∧ String.prefix ".." (rel i) = false ∧ e = regEntry (rel i))
       ∨ (∃ d, e = dirEntry d)).
Proof.
  revert acc. induction inputs as [|i inputs IH]; intros [acc1 acc2] Hrun;
    cbn [yarnClosureEntries fst snd] in *.
  - simplify_eq. rewrite ?filter_nil. cbn [fmap list_fmap]. rewrite app_nil_r.
    split_and!; try done.
    + intros ? Hi. by apply elem_of_nil in Hi.
    + by left.
  - rewrite filter_cons.
    destruct (String.prefix ".." (rel i)) eqn:Hprefix.
    + rewrite decide_True by done.
      apply IH in Hrun as (-> & Hsub & Hnd & Hcover & Hclosed & Hsound).
      cbn [fst snd] in *. split_and!; try done.
      * by rewrite fmap_cons, <-(assoc_L (++)).
      * intros i' [->|Hi']%elem_of_cons Hp; [congruence|by apply Hcover].
      * intros e He. destruct (Hsound e He) as [?|[(i' & ? & ? & ?)|?]]; [by left| |by auto].
        right. left. exists i'. split_and!; [by right|done..].
    + rewrite decide_False by done.
      destruct (addDirectories fuel _ _) as [entries1|] eqn:Hdirs; [|done].
      apply addDirectories_spec in Hdirs as (Hsub1 & Hnd1 & Hdir1 & Hnew1 & Hclosed1).
      apply IH in Hrun as (-> & Hsub & Hnd & Hcover & Hclosed & Hsound).
      cbn [fst snd] in *.
      split_and!; try done.
      * intros e He. apply Hsub, Hsub1, elem_of_set_add. by left.
      * intros Hnd0. by apply Hnd, Hnd1, NoDup_set_add.
      * intros i' [->|Hi']%elem_of_cons Hp; [|by apply Hcover].
        split.
        -- apply Hsub, Hsub1, elem_of_set_add. by right.
        -- intros Hup. by apply Hsub, Hdir1.
      * intros Hclosed0. apply Hclosed. intros d Hd. split.
        -- destruct (Hnew1 _ Hd) as [Hin|(d' & Heq & Hne)].
           ++ apply elem_of_set_add in Hin as [Hin|Heq]; [by apply Hclosed0|].
              by destruct (regEntry_dirEntry (rel i) d).
           ++ by apply dirEntry_inj in Heq as ->.
        -- revert d Hd. apply Hclosed1. intros d Hd Hup.
           apply elem_of_set_add in Hd as [Hd|Heq].
           ++ left. apply elem_of_set_add. left. by apply Hclosed0.
           ++ by destruct (regEntry_dirEntry (rel i) d).
      * intros e He. destruct (Hsound e He) as [Hin|[(i' & ? & ? & ?)|?]]; [| |by auto].
        -- destruct (Hnew1 _ Hin) as [Hin1|(d & ? & ?)]; [|right; right; by exists d].
           apply elem_of_set_add in Hin1 as [?| ->]; [by left|].
           right. left. exists i. split_and!; [by left|done..].
        -- right. left. exists i'. split_and!; [by right|done..].
Qed.

Lemma yarnClosureEntries_ends fuel inputs acc :
  dirnameShortens →
  (∀ i, i ∈ inputs → String.prefix ".." (rel i) = false →
     String.prefix "/" (rel i) = false ∧ (String.length (rel i) ≤ fuel)%nat) →
  is_Some (yarnClosureEntries project fuel inputs acc).
Proof.
  intros Hshort. revert acc.
  induction inputs as [|i inputs IH]; intros acc Hends; simpl; [done|].
  destruct (String.prefix ".." (rel i)) eqn:Hprefix.
  - apply IH. intros i' Hi'. apply Hends. by right.
  - destruct (Hends i) as [Hrel Hlen]; [by left|done|].
    destruct (addDirectories_ends fuel (ppath_dirname (rel i))
                (set_add acc.1 (regEntry (rel i))) Hshort) as [entries ->].
    + destruct (Hshort (rel i) Hrel) as [->|[_ ?]]; done.
    + destruct (Hshort (rel i) Hrel) as [->|[? _]]; [by left|right; lia].
    + apply IH. intros i' Hi'. apply Hends. by right.
Qed.

End ClosureFacts.

(** X14.  The entries built for [filterSource] contain no entry twice,
    hold a [regular:] entry for every input that lies in the project,
    the [directory:] entry of its parent, and with every directory its
    parents up to the project directory, which itself is never an
    entry. *)
Theorem closure_entries_hold_parents `{YarnApi} (project : Project) (fuel : nat)
    (inputs entries : list string) (warnings : list Report) :
  yarnClosureEntries project fuel inputs ([], []) = Some (entries, warnings) →
  NoDup entries
  ∧ holdsParents entries
  ∧ ∀ inputPath, inputPath ∈ inputs →
      String.prefix ".." (ppath_relative (cwd project) inputPath) = false →
      "regular:" +:+ ppath_relative (cwd project) inputPath ∈ entries
      ∧ (ppath_dirname (ppath_relative (cwd project) inputPath) ≠ "." →
         "directory:" +:+ ppath_dirname (ppath_relative (cwd project) inputPath)
           ∈ entries).
Proof.
  intros Hrun.
  apply yarnClosureEntries_spec in Hrun as (_ & _ & Hnd & Hcover & Hclosed & _).
  split_and!.
  - apply Hnd, NoDup_nil_2.
  - apply Hclosed. intros d Hd. by apply elem_of_nil in Hd.
  - done.
Qed.

Lemma closure_entries_hold_parents_witness :
  ∃ entries warnings,
    yarnClosureEntries (H:=pathApi) (commandProject "pnp" "/proj/tools/yarn/yarn.cjs") 5
      ["package.json"; "yarn.lock"; "tools/yarn/yarn.cjs"; "/proj/.yarnrc.yml";
       "/home/dev/.yarnrc.yml"] ([], [])
    = Some (entries, warnings)
    ∧ NoDup entries ∧ holdsParents (H:=pathApi) entries.
Proof.
  destruct (yarnClosureEntries _ _ _ _) as [[entries warnings]|] eqn:Hrun;
    [|vm_compute in Hrun; discriminate Hrun].
  exists entries, warnings. split; [reflexivity|].
  exact ((λ Hall, conj (proj1 Hall) (proj1 (proj2 Hall)))
           (closure_entries_hold_parents (H:=pathApi) _ _ _ _ _ Hrun)).
Defined.

(** X15.  Inputs outside the project are passed over with a warning
    each: the warnings of the loop are those of the inputs whose
    relative path starts with [..], in their order, and every
    [regular:] entry is the relative path of an input that does not. *)
Theorem unreachable_inputs_are_ignored `{YarnApi} (project : Project) (fuel : nat)
    (inputs entries : list string) (warnings : list Report) :
  yarnClosureEntries project fuel inputs ([], []) = Some (entries, warnings) →
  warnings = ignoredPath <$> unreachableInputs project inputs
  ∧ ∀ relativePath, "regular:" +:+ relativePath ∈ entries →
      String.prefix ".." relativePath = false
      ∧ ∃ inputPath, inputPath ∈ inputs
          ∧ relativePath = ppath_relative (cwd project) inputPath.
Proof.
  intros Hrun.
  apply yarnClosureEntries_spec in Hrun as (-> & _ & _ & _ & _ & Hsound).
  split; [done|]. intros r Hr.
  destruct (Hsound _ Hr) as [Hin|[(i & Hi & Hp & Heq)|(d & Heq)]].
  - by apply elem_of_nil in Hin.
  - apply regEntry_inj in Heq as ->. split; [done|by exists i].
  - by destruct (regEntry_dirEntry r d).
Qed.

Lemma unreachable_inputs_are_ignored_witness :
  ∃ entries warnings,
    yarnClosureEntries (H:=pathApi) (commandProject "pnp" "/proj/tools/yarn/yarn.cjs") 5
      ["package.json"; "yarn.lock"; "tools/yarn/yarn.cjs"; "/proj/.yarnrc.yml";
       "/home/dev/.yarnrc.yml"] ([], [])
    = Some (entries, warnings)
    ∧ warnings
      = ignoredPath <$> unreachableInputs (H:=pathApi)
          (commandProject "pnp" "/proj/tools/yarn/yarn.cjs")
          ["package.json"; "yarn.lock"; "tools/yarn/yarn.cjs"; "/proj/.yarnrc.yml";
           "/home/dev/.yarnrc.yml"]
    ∧ List.length warnings = 1.
Proof.
  destruct (yarnClosureEntries _ _ _ _) as [[entries warnings]|] eqn:Hrun;
    [|vm_compute in Hrun; discriminate Hrun].
  exists entries, warnings. split; [reflexivity|].
  pose proof (proj1 (unreachable_inputs_are_ignored (H:=pathApi) _ _ _ _ _ Hrun))
    as Hwarnings.
  split; [exact Hwarnings|]. rewrite Hwarnings. vm_compute. reflexivity.
Defined.

(** The [dirname] of the examples. *)
Lemma dirname_go_Some s d :
  dirname_go s = Some d →
  String.length d < String.length s
  ∧ match d with
    | "" => String.prefix "/" s = true
    | String c _ => ∃ s', s = String c s'
    end.
Proof.
  revert d. induction s as [|a s IH]; intros d Hgo; [done|].
  simpl in Hgo. destruct (dirname_go s) as [d'|].
  - injection Hgo as <-. destruct (IH d' eq_refl) as [Hlen _].
    split; [simpl; lia|by eexists].
  - destruct (Ascii.eqb_spec a "/"%char) as [->|_]; [|done].
    injection Hgo as <-. split; [simpl; lia|].
    cbn [String.prefix]. destruct (ascii_dec "/" "/"); [by destruct s|done].
Qed.

Lemma prefix_slash_head c s s' :
  String.prefix "/" (String c s) = String.prefix "/" (String c s').
Proof.
  cbn [String.prefix]. destruct (ascii_dec "/" c); [by destruct s, s'|done].
Qed.

Lemma exampleDirname_shortens : dirnameShortens (H:=pathApi).
Proof.
  intros path Hrel. change (ppath_dirname path) with (exampleDirname path).
  unfold exampleDirname.
  destruct (dirname_go path) as [d|] eqn:Hgo; [|by left].
  apply dirname_go_Some in Hgo as [Hlen Hd].
  destruct d as [|c d]; [congruence|].
  right. split; [done|]. destruct Hd as [s' ->].
  by rewrite (prefix_slash_head c d s').
Qed.

(** X16.  The directory loop ends.  Given that [ppath.dirname] maps a
    path that is not absolute to [.] or to a shorter path that is not
    absolute, the loop over the inputs returns its entries as soon as
    the number of rounds reaches the length of the longest relative
    path of an input in the project, these paths not being absolute:
    every round of the [while] loop shortens [dir]. *)
Theorem closure_entries_end `{YarnApi} (project : Project) (fuel : nat)
    (inputs : list string) :
  dirnameShortens →
  (∀ inputPath, inputPath ∈ inputs →
     String.prefix ".." (ppath_relative (cwd project) inputPath) = false →
     String.prefix "/" (ppath_relative (cwd project) inputPath) = false
     ∧ (String.length (ppath_relative (cwd project) inputPath) ≤ fuel)%nat) →
  ∃ entries warnings,
    yarnClosureEntries project fuel inputs ([], []) = Some (entries, warnings).
Proof.
  intros Hshort Hends.
  destruct (yarnClosureEntries_ends project fuel inputs ([], []) Hshort Hends)
    as [[entries warnings] Hrun].
  by exists entries, warnings.
Qed.

Lemma closure_entries_end_witness :
  ∃ entries warnings,
    yarnClosureEntries (H:=pathApi) (commandProject "pnp" "/proj/tools/yarn/yarn.cjs") 19
      ["package.json"; "tools/yarn/yarn.cjs"; "/home/dev/.yarnrc.yml"] ([], [])
    = Some (entries, warnings).
Proof.
  apply (closure_entries_end (H:=pathApi)).
  - exact exampleDirname_shortens.
  - intros inputPath Hin Hprefix.
    apply list_elem_of_In in Hin. simpl in Hin.
    destruct Hin as [<-|[<-|[<-|[]]]].
    + split; [reflexivity|vm_compute; lia].
    + split; [reflexivity|vm_compute; lia].
    + discriminate Hprefix.
Defined.

(** ** The run of [generate] *)

Section CommandFacts.
Context `{YarnApi} `{CommandApi}.
Context (defaultExprTmpl projectExprTmpl : string) (project : Project) (env : CommandEnv).

Lemma forEachM_report_run warnings w :
  forEachM report warnings w
  = (Return tt, {| fs := fs w; reports := reports w ++ warnings; effects := effects w |}).
Proof.
  revert w. induction warnings as [|r warnings IH]; intros w.
  - destruct w. simpl. by rewrite app_nil_r.
  - simpl. rewrite bind_run. unfold report at 1. rewrite IH. simpl.
    by rewrite <-(assoc_L (++)).
Qed.

(** The statements from the [nix-hash] call on, run in [w]. *)
Lemma writeExpressions_run entries w :
  writeExpressions defaultExprTmpl projectExprTmpl project env entries w
  = match execNixHash env (nixHashArgs project) with
    | Return stdout =>
        let files :=
          <[projectExprPath project
              := renderProjectExpr projectExprTmpl project (trim stdout) entries]> (fs w) in
        let wrote := ReportInfo ("Wrote: " +:+ projectExprPath project) in
        if bool_decide (is_Some (files !! defaultExprPath project))
        then (Return tt, {| fs := files; reports := reports w ++ [wrote];
                            effects := effects w |})
        else (Return tt,
              {| fs := <[defaultExprPath project := defaultExprTmpl]> files;
                 reports := reports w
                   ++ [wrote; ReportInfo ("Wrote: " +:+ defaultExprPath project)];
                 effects := effects w |})
    | Throw msg => (Throw msg, w)
    | StackOverflow => (StackOverflow, w)
    end.
Proof.
  unfold writeExpressions. rewrite bind_run. unfold raise at 1.
  destruct (execNixHash env (nixHashArgs project)) as [stdout|msg|]; [|done..].
  rewrite bind_run. unfold writeFile at 1. rewrite bind_run. unfold report at 1.
  rewrite bind_run. unfold existsSync at 1. cbn [fs reports effects].
  destruct (bool_decide (is_Some (_ !! defaultExprPath project))).
  - done.
  - cbn [negb when]. rewrite bind_run. unfold writeFile at 1, report. simpl.
    by rewrite <-(assoc_L (++)).
Qed.

(** A run that gets past the checks. *)
Lemma generateWhole_run fuel w entries warnings :
  nodeLinker (configuration project) = "pnp" →
  String.prefix "." (yarnPathInProject project) = false →
  installed project w = true →
  yarnClosureEntries project fuel
    (yarnClosureInput project env (bool_decide (is_Some (fs w !! pluginsDir project))))
    ([], []) = Some (entries, warnings) →
  generateWhole defaultExprTmpl projectExprTmpl project env fuel w
  = Some (writeExpressions defaultExprTmpl projectExprTmpl project env entries
            {| fs := fs w; reports := reports w ++ warnings; effects := effects w |}).
Proof.
  intros Hlinker Hyarn Hinstalled Hentries. unfold generateWhole, generateBody.
  rewrite Hlinker. change (negb (String.eqb "pnp" "pnp")) with false. cbv iota.
  rewrite Hyarn, Hinstalled, Hentries. cbn [negb].
  by rewrite bind_run, forEachM_report_run.
Qed.

End CommandFacts.

(** X17.  A failed check ends [generate] with one error and nothing
    else: with another linker than [pnp], with a Yarn path whose path
    from the project starts with a dot, or in a project whose lockfile
    or PnP file is missing, the run reports exactly one error, writes no
    file, and calls nothing. *)
Theorem command_checks_write_nothing `{YarnApi} `{CommandApi}
    (defaultExprTmpl projectExprTmpl : string) (project : Project) (env : CommandEnv)
    (fuel : nat) (w : World) :
  nodeLinker (configuration project) ≠ "pnp"
  ∨ String.prefix "." (yarnPathInProject project) = true
  ∨ installed project w = false →
  ∃ msg,
    generateWhole defaultExprTmpl projectExprTmpl project env fuel w
    = Some (Return tt, {| fs := fs w; reports := reports w ++ [ReportError msg];
                          effects := effects w |}).
Proof.
  intros Hcheck. unfold generateWhole, generateBody.
  destruct (String.eqb_spec (nodeLinker (configuration project)) "pnp") as [Hpnp|Hpnp];
    [|by eexists].
  cbn [negb].
  destruct (String.prefix "." (yarnPathInProject project)) eqn:Hyarn; [by eexists|].
  destruct (installed project w) eqn:Hinstalled; [|by eexists].
  by destruct Hcheck as [?|[?|?]].
Qed.

Lemma command_checks_write_nothing_witness :
  ∃ msg,
    generateWhole (H:=pathApi) (H0:=exampleCommandApi) "{ }" "{ project }"
      (commandProject "pnp" "/proj/.yarn/releases/yarn.cjs") commandEnv 5 installedWorld
    = Some (Return tt,
            {| fs := fs installedWorld;
               reports := reports installedWorld ++ [ReportError msg];
               effects := effects installedWorld |}).
Proof.
  apply (command_checks_write_nothing (H:=pathApi) (H0:=exampleCommandApi)).
  right. left. reflexivity.
Defined.

(** X18.  A run that gets past the checks and whose [nix-hash] call
    succeeds writes [yarn-project.nix] with the rendered expression,
    keeps a [default.nix] that exists and creates it from the template
    otherwise (whether or not there is a [flake.nix]), leaves all other
    files alone and reports no error. *)
Theorem command_writes_expressions `{YarnApi} `{CommandApi}
    (defaultExprTmpl projectExprTmpl : string) (project : Project) (env : CommandEnv)
    (fuel : nat) (w : World) (entries : list string) (warnings : list Report)
    (stdout : string) :
  nodeLinker (configuration project) = "pnp" →
  String.prefix "." (yarnPathInProject project) = false →
  installed project w = true →
  yarnClosureEntries project fuel
    (yarnClosureInput project env (bool_decide (is_Some (fs w !! pluginsDir project))))
    ([], []) = Some (entries, warnings) →
  execNixHash env (nixHashArgs project) = Return stdout →
  ∃ w',
    generateWhole defaultExprTmpl projectExprTmpl project env fuel w = Some (Return tt, w')
    ∧ fs w' !! projectExprPath project
      = Some (renderProjectExpr projectExprTmpl project (trim stdout) entries)
    ∧ (defaultExprPath project ≠ projectExprPath project →
       fs w' !! defaultExprPath project
       = Some (default defaultExprTmpl (fs w !! defaultExprPath project)))
    ∧ (∀ path, path ≠ projectExprPath project → path ≠ defaultExprPath project →
         fs w' !! path = fs w !! path)
    ∧ exitCode w' = exitCode w.
Proof.
  intros Hlinker Hyarn Hinstalled Hentries Hhash.
  rewrite (generateWhole_run _ _ _ _ _ _ entries warnings) by done.
  rewrite writeExpressions_run, Hhash. cbn [fs reports effects].
  assert (Hwarn : Forall (λ r, isError r = false) warnings).
  { apply yarnClosureEntries_spec in Hentries as (-> & _).
    apply Forall_fmap, Forall_true. done. }
  pose proof (exitCode_no_error w warnings Hwarn) as Hcode.
  destruct (bool_decide (is_Some (_ !! defaultExprPath project))) eqn:Hdefault.
  - eexists. split; [done|]. cbn [fs reports effects]. split_and!.
    + apply lookup_insert_eq.
    + intros Hne. rewrite lookup_insert_ne by done.
      apply bool_decide_eq_true in Hdefault as [content Hcontent].
      rewrite lookup_insert_ne in Hcontent by done. by rewrite Hcontent.
    + intros path Hp _. by rewrite lookup_insert_ne.
    + rewrite <-Hcode. unfold exitCode. cbn [reports].
      by rewrite !existsb_app, orb_false_r.
  - eexists. split; [done|]. cbn [fs reports effects]. split_and!.
    + apply bool_decide_eq_false in Hdefault.
      destruct (decide (defaultExprPath project = projectExprPath project)) as [Heq|Hne].
      * destruct Hdefault. rewrite Heq, lookup_insert_eq. by eexists.
      * rewrite lookup_insert_ne by done. apply lookup_insert_eq.
    + intros Hne. rewrite lookup_insert_eq.
      apply bool_decide_eq_false in Hdefault.
      rewrite lookup_insert_ne in Hdefault by done.
      destruct (fs w !! defaultExprPath project) as [content|] eqn:Hcontent; [|done].
      destruct Hdefault. by eexists.
    + intros path Hp Hd. by rewrite !lookup_insert_ne.
    + rewrite <-Hcode. unfold exitCode. cbn [reports].
      by rewrite !existsb_app, orb_false_r.
Qed.

Lemma command_writes_expressions_witness :
  ∃ w',
    generateWhole (H:=pathApi) (H0:=exampleCommandApi) "{ }" "{ project }"
      (commandProject "pnp" "/proj/tools/yarn/yarn.cjs") commandEnv 5 installedWorld
    = Some (Return tt, w')
    ∧ fs w' !! "/proj/default.nix" = Some "{ }"
    ∧ fs w' !! "/proj/flake.nix" = Some "{ }"
    ∧ exitCode w' = 0.
Proof.
  destruct (yarnClosureEntries (H:=pathApi) (commandProject "pnp" "/proj/tools/yarn/yarn.cjs")
              5 (yarnClosureInput (H:=pathApi)
                   (commandProject "pnp" "/proj/tools/yarn/yarn.cjs") commandEnv
                   (bool_decide (is_Some (fs installedWorld
                      !! pluginsDir (H:=pathApi)
                           (commandProject "pnp" "/proj/tools/yarn/yarn.cjs")))))
              ([], [])) as [[entries warnings]|] eqn:Hentries;
    [|vm_compute in Hentries; discriminate Hentries].
  destruct (command_writes_expressions (H:=pathApi) (H0:=exampleCommandApi)
              "{ }" "{ project }" (commandProject "pnp" "/proj/tools/yarn/yarn.cjs")
              commandEnv 5 installedWorld entries warnings "0aaaabbbbccccdddd")
    as (w' & Hrun & _ & Hdefault & Hframe & Hcode).
  - reflexivity.
  - reflexivity.
  - vm_compute. reflexivity.
  - exact Hentries.
  - reflexivity.
  - exists w'. split_and!.
    + exact Hrun.
    + etrans; [apply Hdefault; vm_compute; discriminate|reflexivity].
    + etrans; [apply Hframe; vm_compute; discriminate|reflexivity].
    + etrans; [apply Hcode|reflexivity].
Defined.

(** X19.  When the [nix-hash] call fails, [generate] throws its error
    after the warnings for the inputs outside the project: no file is
    written, neither [yarn-project.nix] nor [default.nix]. *)
Theorem command_hash_failure_writes_nothing `{YarnApi} `{CommandApi}
    (defaultExprTmpl projectExprTmpl : string) (project : Project) (env : CommandEnv)
    (fuel : nat) (w : World) (entries : list string) (warnings : list Report)
    (msg : string) :
  nodeLinker (configuration project) = "pnp" →
  String.prefix "." (yarnPathInProject project) = false →
  installed project w = true →
  yarnClosureEntries project fuel
    (yarnClosureInput project env (bool_decide (is_Some (fs w !! pluginsDir project))))
    ([], []) = Some (entries, warnings) →
  execNixHash env (nixHashArgs project) = Throw msg →
  generateWhole defaultExprTmpl projectExprTmpl project env fuel w
  = Some (Throw msg,
          {| fs := fs w; reports := reports w ++ warnings; effects := effects w |}).
Proof.
  intros Hlinker Hyarn Hinstalled Hentries Hhash.
  rewrite (generateWhole_run _ _ _ _ _ _ entries warnings) by done.
  by rewrite writeExpressions_run, Hhash.
Qed.

Lemma command_hash_failure_writes_nothing_witness :
  ∃ w',
    generateWhole (H:=pathApi) (H0:=exampleCommandApi) "{ }" "{ project }"
      (commandProject "pnp" "/proj/tools/yarn/yarn.cjs") hashlessEnv 5 installedWorld
    = Some (Throw "spawn nix-hash ENOENT", w')
    ∧ fs w' = fs installedWorld.
Proof.
  destruct (yarnClosureEntries (H:=pathApi) (commandProject "pnp" "/proj/tools/yarn/yarn.cjs")
              5 (yarnClosureInput (H:=pathApi)
                   (commandProject "pnp" "/proj/tools/yarn/yarn.cjs") hashlessEnv
                   (bool_decide (is_Some (fs installedWorld
                      !! pluginsDir (H:=pathApi)
                           (commandProject "pnp" "/proj/tools/yarn/yarn.cjs")))))
              ([], [])) as [[entries warnings]|] eqn:Hentries;
    [|vm_compute in Hentries; discriminate Hentries].
  eexists. split.
  - apply (command_hash_failure_writes_nothing (H:=pathApi) (H0:=exampleCommandApi)
             "{ }" "{ project }" (commandProject "pnp" "/proj/tools/yarn/yarn.cjs")
             hashlessEnv 5 installedWorld entries warnings).
    + reflexivity.
    + reflexivity.
    + vm_compute. reflexivity.
    + exact Hentries.
    + reflexivity.
  - reflexivity.
Defined.

(** ** The [install-bin] command *)

Section InstallBinFacts.
Context `{YarnApi} `{CommandApi} (binTmpl : string) (project : Project) (binDir : string).

Local Abbreviation step :=
  (λ (d : BinDir) (entry : string * string),
     chmodSync (binPathOf binDir entry.1) 493%N
       (writeFileSync (binPathOf binDir entry.1) (binScript binTmpl project entry.2) d)).

Lemma installBin_other (bin : list (string * string)) d path :
  path ∉ binPathOf binDir <$> bin.*1 →
  binFiles (foldl step d bin) !! path = binFiles d !! path
  ∧ binModes (foldl step d bin) !! path = binModes d !! path.
Proof.
  revert d. induction bin as [|[name scriptInput] bin IH]; intros d Hpath; [done|].
  rewrite !fmap_cons in Hpath. apply not_elem_of_cons in Hpath as [Hne Hpath].
  cbn [foldl]. destruct (IH (step d (name, scriptInput)) Hpath) as [Hfiles Hmodes].
  cbn [fst snd] in Hfiles, Hmodes, Hne |- *.
  rewrite Hfiles, Hmodes. unfold chmodSync, writeFileSync. cbn [binFiles binModes fst snd].
  by rewrite !lookup_insert_ne.
Qed.

Lemma installBin_entry (bin : list (string * string)) d name scriptInput :
  NoDup (binPathOf binDir <$> bin.*1) →
  (name, scriptInput) ∈ bin →
  binFiles (foldl step d bin) !! binPathOf binDir name
  = Some (binScript binTmpl project scriptInput)
  ∧ binModes (foldl step d bin) !! binPathOf binDir name = Some 493%N.
Proof.
  revert d. induction bin as [|[name' scriptInput'] bin IH]; intros d Hnd Hin.
  - by apply elem_of_nil in Hin.
  - rewrite !fmap_cons in Hnd. apply NoDup_cons in Hnd as [Hfresh Hnd].
    cbn [foldl]. apply elem_of_cons in Hin as [Heq|Hin].
    + injection Heq as <- <-.
      destruct (installBin_other bin (step d (name, scriptInput)) _ Hfresh)
        as [Hfiles Hmodes].
      cbn [fst snd] in Hfiles, Hmodes |- *.
      rewrite Hfiles, Hmodes. unfold chmodSync, writeFileSync.
      cbn [binFiles binModes fst snd]. by rewrite !lookup_insert_eq.
    + by apply IH.
Qed.

End InstallBinFacts.

(** X20.  [install-bin] writes a wrapper for every entry of the [bin]
    map of the workspace: when the entries get distinct paths in the
    target directory, the file of an entry holds the template with the
    PnP path and the path of that entry's script filled in, and its mode
    is [0o755]. *)
Theorem install_bin_writes_wrappers `{YarnApi} `{CommandApi} (binTmpl : string)
    (project : Project) (bin : JsMap string) (binDir : string) (d : BinDir)
    (name scriptInput : string) :
  NoDup (binPathOf binDir <$> bin.*1) →
  (name, scriptInput) ∈ bin →
  binFiles (installBin binTmpl project (Some bin) binDir d) !! binPathOf binDir name
  = Some (binScript binTmpl project scriptInput)
  ∧ binModes (installBin binTmpl project (Some bin) binDir d) !! binPathOf binDir name
    = Some 493%N.
Proof. intros Hnd Hin. by apply installBin_entry. Qed.

Lemma install_bin_writes_wrappers_witness :
  binFiles (installBin (H:=pathApi) (H0:=exampleCommandApi) "#!/bin/sh"
              (commandProject "pnp" "/proj/tools/yarn/yarn.cjs")
              (Some [("app", "./bin/app.js"); ("app-admin", "./bin/admin.js")])
              "/out/bin" emptyBinDir)
    !! binPathOf (H:=pathApi) (H0:=exampleCommandApi) "/out/bin" "app-admin"
  = Some (binScript (H:=pathApi) (H0:=exampleCommandApi) "#!/bin/sh"
            (commandProject "pnp" "/proj/tools/yarn/yarn.cjs") "./bin/admin.js")
  ∧ binModes (installBin (H:=pathApi) (H0:=exampleCommandApi) "#!/bin/sh"
                (commandProject "pnp" "/proj/tools/yarn/yarn.cjs")
                (Some [("app", "./bin/app.js"); ("app-admin", "./bin/admin.js")])
                "/out/bin" emptyBinDir)
      !! binPathOf (H:=pathApi) (H0:=exampleCommandApi) "/out/bin" "app-admin"
    = Some 493%N.
Proof.
  apply (install_bin_writes_wrappers (H:=pathApi) (H0:=exampleCommandApi)).
  - apply (bool_decide_unpack _). vm_compute. exact I.
  - apply (bool_decide_unpack _). vm_compute. exact I.
Defined.

(** X21.  [install-bin] touches nothing but the wrappers: a path that
    is not the wrapper path of an entry keeps its content and its mode,
    and without a workspace at the working directory nothing changes at
    all. *)
Theorem install_bin_touches_only_wrappers `{YarnApi} `{CommandApi} (binTmpl : string)
    (project : Project) (workspace : option (JsMap string)) (binDir : string)
    (d : BinDir) (path : string) :
  path ∉ binPathOf binDir <$> (default [] workspace).*1 →
  binFiles (installBin binTmpl project workspace binDir d) !! path = binFiles d !! path
  ∧ binModes (installBin binTmpl project workspace binDir d) !! path
    = binModes d !! path.
Proof.
  intros Hpath. destruct workspace as [bin|]; [|done]. by apply installBin_other.
Qed.

Lemma install_bin_touches_only_wrappers_witness :
  binFiles (installBin (H:=pathApi) (H0:=exampleCommandApi) "#!/bin/sh"
              (commandProject "pnp" "/proj/tools/yarn/yarn.cjs")
              (Some [("app", "./bin/app.js"); ("app-admin", "./bin/admin.js")])
              "/out/bin" emptyBinDir) !! "/out/bin/node" = None
  ∧ binModes (installBin (H:=pathApi) (H0:=exampleCommandApi) "#!/bin/sh"
                (commandProject "pnp" "/proj/tools/yarn/yarn.cjs")
                (Some [("app", "./bin/app.js"); ("app-admin", "./bin/admin.js")])
                "/out/bin" emptyBinDir) !! "/out/bin/node" = None.
Proof.
  apply (install_bin_touches_only_wrappers (H:=pathApi) (H0:=exampleCommandApi)
           "#!/bin/sh" (commandProject "pnp" "/proj/tools/yarn/yarn.cjs")
           (Some [("app", "./bin/app.js"); ("app-admin", "./bin/admin.js")])
           "/out/bin" emptyBinDir "/out/bin/node").
  apply (bool_decide_unpack _). vm_compute. exact I.
Defined.

(** ** The sanity checks of the generator *)

Section SanityFacts.
Context `{YarnApi} (project : Project).

Lemma forEachM_when_report {A} (cond : A → bool) (msg : A → Report) xs w :
  forEachM (λ x, when (cond x) (report (msg x))) xs w
  = (Return tt,
     {| fs := fs w;
        reports := reports w ++ (msg <$> filter (λ x, cond x = true) xs);
        effects := effects w |}).
Proof.
  revert w. induction xs as [|x xs IH]; intros w.
  - destruct w. simpl. by rewrite app_nil_r.
  - cbn [forEachM]. rewrite bind_run, filter_cons.
    destruct (cond x) eqn:Hcond.
    + rewrite decide_True by done. cbn [when]. unfold report at 1. rewrite IH.
      cbn [fs reports effects]. by rewrite fmap_cons, <-(assoc_L (++)).
    + rewrite decide_False by done. cbn [when]. unfold ret. by rewrite IH.
Qed.

Lemma when_report_run b r w :
  when b (report r) w
  = (Return tt,
     {| fs := fs w; reports := reports w ++ (if b then [r] else []);
        effects := effects w |}).
Proof. destruct b, w; simpl; by rewrite ?app_nil_r. Qed.

Lemma sanityChecks_warnings w :
  sanityChecks project w
  = (Return tt,
     {| fs := fs w; reports := reports w ++ sanityWarnings project;
        effects := effects w |}).
Proof.
  unfold sanityChecks, sanityWarnings, outside.
  rewrite bind_run, when_report_run, bind_run, when_report_run.
  rewrite forEachM_when_report. cbn [fs reports effects].
  by rewrite <-!(assoc_L (++)).
Qed.

End SanityFacts.

(** X22.  In a project that sets [yarnPath], the sanity checks only
    warn: they return without writing or calling anything, and what
    they add to the report is one warning for a Yarn path outside the
    project, one for a cache folder outside, and one for each
    configuration file outside, in this order; settings that [sources]
    marks as built in are not looked at. *)
Theorem sanity_checks_only_warn `{YarnApi} (project : Project) (w : World) :
  sanityChecks project w
  = (Return tt,
     {| fs := fs w; reports := reports w ++ sanityWarnings project;
        effects := effects w |})
  ∧ Forall (λ r, isError r = false) (sanityWarnings project)
  ∧ (List.length (sanityWarnings project)
     ≤ 2 + List.length (sources (configuration project)))%nat.
Proof.
  split; [apply sanityChecks_warnings|]. unfold sanityWarnings. split.
  - repeat apply Forall_app_2.
    + by destruct (outside _ _); repeat constructor.
    + by destruct (outside _ _); repeat constructor.
    + apply Forall_fmap, Forall_true. done.
  - rewrite !length_app, length_fmap.
    pose proof (length_filter (λ source, negb (String.prefix "<" source)
                                          && outside project source = true)
                  (sources (configuration project))).
    destruct (outside _ (yarnPath _)), (outside _ (cacheFolder _)); simpl; lia.
Qed.
